(** * gentypes: Go type generation from the DAP JSON schema

    A shallow embedding of [cmd/gentypes/gentypes.go] and the properties of
    the generator that its specification states.

    Conventions of the embedding:
    - a JSON text is represented by its syntax tree [json]; objects keep
      their members as an association list, in source order and with
      duplicates, because the generator reads keys in order;
    - a [json.RawMessage] that may be nil is an [option json];
    - a Go [map[string]T] decoded from JSON is a [gmap string _]; a later
      duplicate of a key overrides an earlier one, as in [encoding/json];
    - a value of type [interface{}] produced by the decoder is again a
      [json] tree ([JNull] is the nil interface);
    - [log.Fatal] and run-time panics are the two failing outcomes of
      [result]; Go strings are [string]s (byte sequences). *)

From Stdlib Require Import Ascii String.
From stdpp Require Import base option list strings gmap.

Local Open Scope string_scope.
Local Open Scope list_scope.
Local Open Scope stdpp_scope.

(** ** Outcomes *)

Inductive result (A : Type) : Type :=
| Ok (a : A)
| Fatal (msg : string)
| Panic (msg : string).
Arguments Ok {A} a.
Arguments Fatal {A} msg.
Arguments Panic {A} msg.

Global Instance result_ret : MRet result := @Ok.
Global Instance result_bind : MBind result := fun A B f r =>
  match r with
  | Ok a => f a
  | Fatal m => Fatal m
  | Panic m => Panic m
  end.

(** The program stopped without a value: [log.Fatal] or a panic. *)
Definition aborts {A} (r : result A) : Prop :=
  match r with Ok _ => False | _ => True end.

Definition is_fatal {A} (r : result A) : Prop :=
  match r with Fatal _ => True | _ => False end.

(** ** Go strings *)

Definition quote : string := String "034"%char EmptyString.
Definition nl : string := String "010"%char EmptyString.
Definition tab : string := String "009"%char EmptyString.

Fixpoint string_drop (n : nat) (s : string) : string :=
  match n, s with
  | S n', String _ s' => string_drop n' s'
  | _, _ => s
  end.

(** [strings.HasPrefix] *)
Definition HasPrefix (s pre : string) : bool := String.prefix pre s.

(** [strings.HasSuffix] *)
Definition HasSuffix (s suf : string) : bool :=
  String.prefix (String.rev suf) (String.rev s).

(** [strings.ReplaceAll] for a pattern of one byte, the only use the
    generator makes of it. *)
Fixpoint ReplaceAll (s : string) (old : ascii) (new : string) : string :=
  match s with
  | EmptyString => EmptyString
  | String c s' =>
      if Ascii.eqb c old then new +:+ ReplaceAll s' old new
      else String c (ReplaceAll s' old new)
  end.

Definition in_range (lo hi c : ascii) : bool :=
  (nat_of_ascii lo <=? nat_of_ascii c)%nat && (nat_of_ascii c <=? nat_of_ascii hi)%nat.

Definition is_digit (c : ascii) : bool := in_range "0" "9" c.
Definition is_lower (c : ascii) : bool := in_range "a" "z" c.
Definition is_upper (c : ascii) : bool := in_range "A" "Z" c.

(** [strings.isSeparator] on the ASCII range: letters, digits and the
    underscore do not separate words.  Bytes above 0x7F are kept as
    non-separators; property names of the schema are ASCII. *)
Definition isSeparator (r : ascii) : bool :=
  if (nat_of_ascii r <=? 127)%nat then
    negb (is_digit r || is_lower r || is_upper r || Ascii.eqb r "_")
  else false.

(** [unicode.ToTitle] on the ASCII range. *)
Definition ToTitle (r : ascii) : ascii :=
  if is_lower r then ascii_of_nat (nat_of_ascii r - 32) else r.

(** [strings.Title]: the closure over [prev] becomes an argument. *)
Fixpoint Title_from (prev : ascii) (s : string) : string :=
  match s with
  | EmptyString => EmptyString
  | String r s' =>
      String (if isSeparator prev then ToTitle r else r) (Title_from r s')
  end.

Definition Title (s : string) : string := Title_from " " s.

(** ** JSON syntax trees *)

Unset Elimination Schemes.
Inductive json : Type :=
| JNull
| JBool (b : bool)
| JNumber (lit : string)
| JString (s : string)
| JArray (items : list json)
| JObject (members : list (string * json)).
Set Elimination Schemes.

(** Nesting depth, the measure of the generator's recursion. *)
Fixpoint depth (j : json) : nat :=
  match j with
  | JArray items => S (foldr (fun v n => Nat.max (depth v) n) 0 items)
  | JObject members => S (foldr (fun kv n => Nat.max (depth kv.2) n) 0 members)
  | _ => 0
  end.

(** ** The part of [encoding/json] the generator uses *)

Inductive error : Type :=
| ErrUnexpectedEnd      (* unexpected end of JSON input *)
| ErrUnmarshalType      (* cannot unmarshal ... into Go value of type ... *)
| ErrEOF                (* io.EOF from the token reader *)
| ErrExpectedStart      (* expected start of object *)
| errEnd                (* invalid end of array or object *)
| ErrFormat.            (* go/format rejected the text *)

Definition error_message (e : error) : string :=
  match e with
  | ErrUnexpectedEnd => "unexpected end of JSON input"
  | ErrUnmarshalType => "json: cannot unmarshal value into Go value"
  | ErrEOF => "EOF"
  | ErrExpectedStart => "expected start of object"
  | errEnd => "invalid end of array or object"
  | ErrFormat => "format: invalid source"
  end.

Global Instance error_eq_dec : EqDecision error.
Proof. solve_decision. Defined.

(** The Go map decoded from the members of an object: members are stored
    left to right, so the last duplicate of a key stays. *)
Definition obj_map (members : list (string * json)) : gmap string json :=
  foldl (fun m kv => <[kv.1 := kv.2]> m) ∅ members.

(** Decoding targets of [json.Unmarshal]: the zero value a fresh variable
    holds (JSON null leaves it untouched) and the JSON shape accepted. *)
Class Target (T : Type) := {
  zero : T;
  decode : json -> option T
}.

(** [map[string]json.RawMessage] and [map[string]interface{}] *)
Global Instance target_map : Target (gmap string json) := {|
  zero := ∅;
  decode j := match j with JObject members => Some (obj_map members) | _ => None end
|}.

(** [[]json.RawMessage] and [[]interface{}] *)
Global Instance target_slice : Target (list json) := {|
  zero := [];
  decode j := match j with JArray items => Some items | _ => None end
|}.

(** [string] *)
Global Instance target_string : Target string := {|
  zero := EmptyString;
  decode j := match j with JString s => Some s | _ => None end
|}.

(** [json.Unmarshal(data, &v)] for a fresh [v]; nil data is the empty
    input. *)
Definition Unmarshal {T} `{Target T} (data : option json) : error + T :=
  match data with
  | None => inl ErrUnexpectedEnd
  | Some JNull => inr zero
  | Some j => match decode j with Some v => inr v | None => inl ErrUnmarshalType end
  end.

(** [if err != nil { log.Fatal(err) }] *)
Definition orFatal {T} (r : error + T) : result T :=
  match r with
  | inl e => Fatal (error_message e)
  | inr v => Ok v
  end.

(** Type assertions on a decoded [interface{}] value. *)
Definition assert_string (v : json) : result string :=
  match v with
  | JString s => Ok s
  | _ => Panic "interface conversion: interface {} is not string"
  end.

Definition assert_map (v : json) : result (gmap string json) :=
  match v with
  | JObject members => Ok (obj_map members)
  | _ => Panic "interface conversion: interface {} is not map[string]interface {}"
  end.

(** [m[k]] without the presence flag, on a map of [interface{}]. *)
Definition index (m : gmap string json) (k : string) : json :=
  default JNull (m !! k).

(** ** The generator *)

(** [replaceGoTypename] *)
Definition replaceGoTypename (typeName : string) : string :=
  if String.eqb typeName "Message" then "ErrorMessage" else typeName.

(** [parseRef] *)
Definition parseRef (refValue : json) : result string :=
  refContents ← assert_string refValue;
  if negb (HasPrefix refContents "#/definitions/") then
    Fatal "want ref to start with '#/definitions/', got "
  else
    Ok (replaceGoTypename (string_drop 14 refContents)).

(** [goFieldName] *)
Definition goFieldName (jsonPropName : string) : string :=
  let clean := ReplaceAll jsonPropName "_" " " in
  let titled := Title clean in
  ReplaceAll titled " " EmptyString.


(** [parsePropertyType], with the recursive call as a parameter. *)
Definition parsePropertyType_body
    (rec : gmap string json -> result string)
    (propValue : gmap string json) : result string :=
  match propValue !! "$ref" with
  | Some ref => parseRef ref
  | None =>
      match propValue !! "type" with
      | None => Fatal "property with no type or ref:"
      | Some (JString propType) =>
          if propType =? "string" then Ok "string"
          else if propType =? "integer" then Ok "int"
          else if propType =? "boolean" then Ok "bool"
          else if propType =? "array" then
            match propValue !! "items" with
            | None => Fatal "missing items type for property of array type:"
            | Some propItems =>
                propItemsMap ← assert_map propItems;
                elemType ← rec propItemsMap;
                Ok ("[]" +:+ elemType)
            end
          else if propType =? "object" then
            match propValue !! "additionalProperties" with
            | None => Fatal "missing additionalProperties field when type=object:"
            | Some additionalProps =>
                additionalMap ← assert_map additionalProps;
                valueType ← rec additionalMap;
                Ok ("map[string]" +:+ valueType)
            end
          else Fatal "unknown property type value"
      | Some (JArray _) => Ok "interface{}"
      | Some _ => Fatal "unknown property type"
      end
  end.

Fixpoint parsePropertyType_fuel (fuel : nat)
    (propValue : gmap string json) : result string :=
  match fuel with
  | 0 => Panic "unreachable"
  | S fuel => parsePropertyType_body (parsePropertyType_fuel fuel) propValue
  end.

(** Largest nesting depth among the values of a decoded map. *)
Definition map_depth (m : gmap string json) : nat :=
  map_fold (fun _ v n => Nat.max (depth v) n) 0 m.

(** [parsePropertyType]: the recursion descends into a value of the map,
    so the depth of the map bounds it. *)
Definition parsePropertyType (propValue : gmap string json) : result string :=
  parsePropertyType_fuel (S (map_depth propValue)) propValue.

(** [maybeParseInheritance] *)
Definition maybeParseInheritance (descMap : gmap string json)
    : result (string * gmap string json) :=
  match descMap !! "allOf" with
  | None => Ok (EmptyString, descMap)
  | Some allOfListJson =>
      allOfSliceOfJson ← orFatal (Unmarshal (T := list json) (Some allOfListJson));
      if negb (length allOfSliceOfJson =? 2)%nat then
        Fatal "want 2 elements in allOf list, got"
      else
        baseTypeRef ← orFatal (Unmarshal (T := gmap string json) (allOfSliceOfJson !! 0%nat));
        typeDescJson ← orFatal (Unmarshal (T := gmap string json) (allOfSliceOfJson !! 1%nat));
        baseTypeName ← parseRef (index baseTypeRef "$ref");
        Ok (baseTypeName, typeDescJson)
  end.

(** ** Reading keys in source order *)

(** [json.Token]: delimiters and scalar values; the decoder consumes
    colons and commas itself. *)
Inductive Token : Type :=
| Delim (c : ascii)
| TString (s : string)
| TNumber (lit : string)
| TBool (b : bool)
| TNull.

Global Instance Token_eq_dec : EqDecision Token.
Proof. solve_decision. Defined.

(** The token stream of a JSON text. *)
Fixpoint tokens (j : json) : list Token :=
  match j with
  | JNull => [TNull]
  | JBool b => [TBool b]
  | JNumber lit => [TNumber lit]
  | JString s => [TString s]
  | JArray items => Delim "[" :: flat_map tokens items ++ [Delim "]"]
  | JObject members =>
      Delim "{" :: flat_map (fun kv => TString kv.1 :: tokens kv.2) members
        ++ [Delim "}"]
  end.

(** A [json.Decoder] is the input it has not read yet. *)
Definition Decoder : Type := list Token.

(** [json.NewDecoder(bytes.NewReader(b))] *)
Definition NewDecoder (b : option json) : Decoder :=
  match b with
  | None => []
  | Some j => tokens j
  end.

(** [d.Token()] *)
Definition next_token (d : Decoder) : (error + Token) * Decoder :=
  match d with
  | [] => (inl ErrEOF, [])
  | t :: d' => (inr t, d')
  end.

(** The [for] loop of [skipValue]: values are skipped until one call
    reports [errEnd]; [n] bounds the iterations of the model. *)
Definition skipLoop (skip : Decoder -> option (option error * Decoder))
    : nat -> Decoder -> option (option error * Decoder) :=
  fix loop (n : nat) (d : Decoder) :=
    match n with
    | 0 => None
    | S n =>
        match skip d with
        | None => None
        | Some (Some err, d) =>
            if bool_decide (err = errEnd) then Some (None, d)
            else Some (Some err, d)
        | Some (None, d) => loop n d
        end
    end.

(** [skipValue]: returns the error (if any) and the decoder after the
    call.  [None] is the model running out of [fuel]. *)
Fixpoint skipValue (fuel : nat) (d : Decoder) : option (option error * Decoder) :=
  match fuel with
  | 0 => None
  | S fuel =>
      match next_token d with
      | (inl err, d) => Some (Some err, d)
      | (inr t, d) =>
          if bool_decide (t = Delim "[") || bool_decide (t = Delim "{") then
            skipLoop (skipValue fuel) fuel d
          else if bool_decide (t = Delim "]") || bool_decide (t = Delim "}") then
            Some (Some errEnd, d)
          else Some (None, d)
      end
  end.

(** The loop of [keysInOrder]; [t.(string)] panics on another token. *)
Fixpoint keysInOrder_loop (fuel : nat) (d : Decoder) (keys : list string)
    : option (result (error + list string)) :=
  match fuel with
  | 0 => None
  | S fuel =>
      match next_token d with
      | (inl err, _) => Some (Ok (inl err))
      | (inr t, d) =>
          if bool_decide (t = Delim "}") then Some (Ok (inr keys))
          else
            match t with
            | TString k =>
                match skipValue fuel d with
                | None => None
                | Some (Some err, _) => Some (Ok (inl err))
                | Some (None, d) => keysInOrder_loop fuel d (keys ++ [k])
                end
            | _ => Some (Panic "interface conversion: interface {} is not string")
            end
      end
  end.

Definition keysInOrder_fuel (fuel : nat) (b : option json)
    : option (result (error + list string)) :=
  let d := NewDecoder b in
  match next_token d with
  | (inl err, _) => Some (Ok (inl err))
  | (inr t, d) =>
      if negb (bool_decide (t = Delim "{")) then Some (Ok (inl ErrExpectedStart))
      else keysInOrder_loop fuel d []
  end.

(** [keysInOrder]: every call reads at least one token, so the length of
    the input is fuel enough ([keysInOrder_fuel_enough] below). *)
Definition keysInOrder (b : option json) : result (error + list string) :=
  default (Panic "unreachable")
    (keysInOrder_fuel (S (length (NewDecoder b))) b).

(** ** Emitting one type *)

(** The loop that fills [requiredMap]; [r.(string)] may panic. *)
Fixpoint addRequired (required : list json) (requiredMap : gmap string bool)
    : result (gmap string bool) :=
  match required with
  | [] => Ok requiredMap
  | r :: required =>
      name ← assert_string r;
      addRequired required (<[name := true]> requiredMap)
  end.

(** [requiredMap[k]]: false for an absent key. *)
Definition isRequired (requiredMap : gmap string bool) (k : string) : bool :=
  default false (requiredMap !! k).

(** One iteration of the loop over [propsNamesInOrder].  The state is the
    text written to the builder [b] so far and [bodyType]; [continue]
    returns the state as it is.  [rec] is [emitToplevelType] itself. *)
Definition emitProp (rec : string -> option json -> result string)
    (typeName : string) (propsMapOfJson : gmap string json)
    (requiredMap : gmap string bool) (propName : string)
    (st : string * string) : result (string * string) :=
  let '(b, bodyType) := st in
  if (propName =? "type") &&
     ((typeName =? "Request") || (typeName =? "Response") || (typeName =? "Event"))
  then Ok st
  else if (propName =? "command") &&
     negb (typeName =? "Request") && negb (typeName =? "Response")
  then Ok st
  else if (propName =? "event") && negb (typeName =? "Event") then Ok st
  else if (propName =? "arguments") && (typeName =? "Request") then Ok st
  else
    propDesc ← orFatal (Unmarshal (T := gmap string json) (propsMapOfJson !! propName));
    if propName =? "body" then
      if (typeName =? "Response") || (typeName =? "Event") then Ok st
      else
        '(bodyTypeName, bodyType) ←
          match propDesc !! "$ref" with
          | Some ref =>
              bodyTypeName ← parseRef ref;
              Ok (bodyTypeName, bodyType)
          | None =>
              let bodyTypeName := typeName +:+ "Body" in
              bodyType ← rec bodyTypeName (propsMapOfJson !! "body");
              Ok (bodyTypeName, bodyType)
          end;
        if isRequired requiredMap "body" then
          Ok (b +:+ tab +:+ "Body" +:+ " " +:+ bodyTypeName +:+ " `json:"
                +:+ quote +:+ "body" +:+ quote +:+ "`" +:+ nl, bodyType)
        else
          Ok (b +:+ tab +:+ "Body" +:+ " " +:+ bodyTypeName +:+ " `json:"
                +:+ quote +:+ "body,omitempty" +:+ quote +:+ "`" +:+ nl, bodyType)
    else
      goType ← parsePropertyType propDesc;
      let jsonTag := "`json:" +:+ quote +:+ propName in
      let jsonTag :=
        if isRequired requiredMap propName then jsonTag +:+ quote +:+ "`"
        else jsonTag +:+ ",omitempty" +:+ quote +:+ "`" in
      Ok (b +:+ tab +:+ goFieldName propName +:+ " " +:+ goType +:+ " "
            +:+ jsonTag +:+ nl, bodyType).

Fixpoint emitProps (rec : string -> option json -> result string)
    (typeName : string) (propsMapOfJson : gmap string json)
    (requiredMap : gmap string bool) (propsNamesInOrder : list string)
    (st : string * string) : result (string * string) :=
  match propsNamesInOrder with
  | [] => Ok st
  | propName :: rest =>
      st ← emitProp rec typeName propsMapOfJson requiredMap propName st;
      emitProps rec typeName propsMapOfJson requiredMap rest st
  end.

(** [emitToplevelType], with the recursive call as a parameter. *)
Definition emitToplevelType_body (rec : string -> option json -> result string)
    (typeName : string) (descJson : option json) : result string :=
  descMap ← orFatal (Unmarshal (T := gmap string json) descJson);
  '(baseType, descMap) ← maybeParseInheritance descMap;
  match descMap !! "type" with
  | None => Fatal "want description to have 'type', got "
  | Some typeJson =>
      descTypeString ← orFatal (Unmarshal (T := string) (Some typeJson));
      if descTypeString =? "string" then
        Ok ("type " +:+ typeName +:+ " string" +:+ nl)
      else if descTypeString =? "object" then
        let b := "type " +:+ typeName +:+ " struct {" +:+ nl in
        let b :=
          if (0 <? String.length baseType)%nat
          then b +:+ tab +:+ baseType +:+ nl +:+ nl else b in
        match descMap !! "properties" with
        | None => Ok (b +:+ "}" +:+ nl)
        | Some propsJson =>
            propsMapOfJson ← orFatal (Unmarshal (T := gmap string json) (Some propsJson));
            keys ← keysInOrder (descMap !! "properties");
            propsNamesInOrder ← orFatal keys;
            requiredMap ←
              match descMap !! "required" with
              | Some requiredJson =>
                  required ← orFatal (Unmarshal (T := list json) (Some requiredJson));
                  addRequired required ∅
              | None => Ok ∅
              end;
            '(b, bodyType) ←
              emitProps rec typeName propsMapOfJson requiredMap
                propsNamesInOrder (b, EmptyString);
            let b := b +:+ "}" +:+ nl in
            if (0 <? String.length bodyType)%nat
            then Ok (b +:+ nl +:+ bodyType) else Ok b
        end
      else Fatal "want description type to be object or string, got "
  end.

Fixpoint emitToplevelType_fuel (fuel : nat) (typeName : string)
    (descJson : option json) : result string :=
  match fuel with
  | 0 => Panic "unreachable"
  | S fuel => emitToplevelType_body (emitToplevelType_fuel fuel) typeName descJson
  end.

Definition depth_opt (descJson : option json) : nat :=
  match descJson with
  | None => 0
  | Some j => depth j
  end.

(** [emitToplevelType]: the nested call is on a body description inside
    [descJson], so the depth of [descJson] bounds the recursion. *)
Definition emitToplevelType (typeName : string) (descJson : option json)
    : result string :=
  emitToplevelType_fuel (S (depth_opt descJson)) typeName descJson.

(** ** The driver *)

Definition preamble : string :=
  String.concat nl [
    "// Copyright 2019 Google LLC";
    "//";
    "// Licensed under the Apache License, Version 2.0 (the " +:+ quote +:+ "License" +:+ quote +:+ ");";
    "// you may not use this file except in compliance with the License.";
    "// You may obtain a copy of the License at";
    "//";
    "//     https://www.apache.org/licenses/LICENSE-2.0";
    "//";
    "// Unless required by applicable law or agreed to in writing, software";
    "// distributed under the License is distributed on an " +:+ quote +:+ "AS IS" +:+ quote +:+ " BASIS,";
    "// WITHOUT WARRANTIES OR CONDITIONS OF ANY KIND, either express or implied.";
    "// See the License for the specific language governing permissions and";
    "// limitations under the License.";
    EmptyString;
    "// DO NOT EDIT: This file is auto-generated.";
    "// DAP spec: https://microsoft.github.io/debug-adapter-protocol/specification";
    "// See cmd/gentypes/README.md for additional details.";
    EmptyString;
    "package dap";
    EmptyString;
    "// Message is an interface that all DAP message types implement. It's not part";
    "// of the protocol but is used to enforce static typing in Go code.";
    "//";
    "// Note: the DAP type " +:+ quote +:+ "Message" +:+ quote +:+ " (which is used in the body of ErrorResponse)";
    "// is renamed to ErrorMessage to avoid collision with this interface.";
    "type Message interface {";
    tab +:+ "isMessage()";
    "}";
    EmptyString;
    EmptyString
  ].

(** First loop of [main]: one block per definition, in the order of
    [typeNames]. *)
Fixpoint emitTypes (typeMap : gmap string json) (typeNames : list string)
    (b : string) : result string :=
  match typeNames with
  | [] => Ok b
  | typeName :: rest =>
      text ← emitToplevelType (replaceGoTypename typeName) (typeMap !! typeName);
      emitTypes typeMap rest (b +:+ text +:+ nl)
  end.

(** Second loop of [main]: the [isMessage] markers. *)
Fixpoint emitMarkers (typeNames : list string) (b : string) : string :=
  match typeNames with
  | [] => b
  | typeName :: rest =>
      let typeName := replaceGoTypename typeName in
      if HasSuffix typeName "Event" || HasSuffix typeName "Request"
         || HasSuffix typeName "Response" || (typeName =? "ProtocolMessage")
      then emitMarkers rest (b +:+ "func (" +:+ typeName +:+ ") isMessage() {}" +:+ nl)
      else emitMarkers rest b
  end.

Section Driver.

(** [format.Source] of [go/format], the pretty-printer collaborator. *)
Variable format_Source : string -> error + string.

(** [main] up to the call of [fmt.Print]: the text to print.
    [inputData] is the content of the schema file, a JSON text. *)
Definition generate (inputData : json) : result string :=
  m ← orFatal (Unmarshal (T := gmap string json) (Some inputData));
  typeMap ← orFatal (Unmarshal (T := gmap string json) (m !! "definitions"));
  let b := preamble in
  keys ← keysInOrder (m !! "definitions");
  typeNames ← orFatal keys;
  b ← emitTypes typeMap typeNames b;
  let b := emitMarkers typeNames b in
  orFatal (format_Source b).


End Driver.


(** * Properties *)

(** ** JSON trees *)

Definition json_ind (P : json -> Prop)
    (Hnull : P JNull) (Hbool : forall b, P (JBool b))
    (Hnum : forall lit, P (JNumber lit)) (Hstr : forall s, P (JString s))
    (Harr : forall items, Forall P items -> P (JArray items))
    (Hobj : forall members, Forall (fun kv => P kv.2) members -> P (JObject members))
    : forall j, P j :=
  fix F (j : json) : P j :=
    match j with
    | JNull => Hnull
    | JBool b => Hbool b
    | JNumber lit => Hnum lit
    | JString s => Hstr s
    | JArray items =>
        Harr items
          ((fix G (l : list json) : Forall P l :=
              match l with
              | [] => List.Forall_nil P
              | v :: l' => List.Forall_cons P v l' (F v) (G l')
              end) items)
    | JObject members =>
        Hobj members
          ((fix G (l : list (string * json)) : Forall (fun kv => P kv.2) l :=
              match l with
              | [] => List.Forall_nil _
              | kv :: l' => List.Forall_cons _ kv l' (F kv.2) (G l')
              end) members)
    end.

Lemma tokens_nonempty j : (0 < length (tokens j))%nat.
Proof. destruct j; simpl; lia. Qed.

(** ** The token walk *)

Section Skip.

Variable fuel : nat.

(** A chunk is a piece of input that one call of [skipValue] consumes
    without error. *)
Definition chunk (c : list Token) : Prop :=
  forall rest, skipValue fuel (c ++ rest) = Some (None, rest).

Lemma skipLoop_chunks (cs : list (list Token)) (closer : Token) :
  Forall chunk cs ->
  closer = Delim "]" \/ closer = Delim "}" ->
  (0 < fuel)%nat ->
  forall n rest, (length cs < n)%nat ->
    skipLoop (skipValue fuel) n (concat cs ++ closer :: rest) = Some (None, rest).
Proof.
  intros Hcs Hcl Hfuel.
  induction Hcs as [|c cs Hc _ IH]; intros n rest Hn.
  - destruct n as [|n]; [simpl in Hn; lia|].
    destruct fuel as [|f]; [lia|].
    destruct Hcl as [-> | ->]; reflexivity.
  - destruct n as [|n]; [simpl in Hn; lia|].
    simpl. rewrite <- app_assoc, Hc. apply IH. simpl in Hn. lia.
Qed.

End Skip.

Lemma flat_map_tokens_length (items : list json) v :
  v ∈ items -> (length (tokens v) <= length (flat_map tokens items))%nat.
Proof.
  induction 1 as [v l | v w l _ IH]; simpl; rewrite length_app; lia.
Qed.

Lemma flat_map_tokens_count (items : list json) :
  (length items <= length (flat_map tokens items))%nat.
Proof.
  induction items as [|v l IH]; simpl; [lia|].
  rewrite length_app. pose proof (tokens_nonempty v). lia.
Qed.

Definition member_tokens (kv : string * json) : list Token :=
  TString kv.1 :: tokens kv.2.

Lemma flat_map_member_length (members : list (string * json)) kv :
  kv ∈ members ->
  (S (length (tokens kv.2)) <= length (flat_map member_tokens members))%nat.
Proof.
  induction 1 as [kv l | kv w l _ IH]; simpl; rewrite length_app; lia.
Qed.

Lemma flat_map_member_count (members : list (string * json)) :
  (2 * length members <= length (flat_map member_tokens members))%nat.
Proof.
  induction members as [|kv l IH]; simpl; [lia|].
  rewrite length_app. pose proof (tokens_nonempty kv.2). lia.
Qed.

Lemma chunk_string fuel k : (0 < fuel)%nat -> chunk fuel [TString k].
Proof. intros H rest. destruct fuel; [lia|reflexivity]. Qed.

(** One call of [skipValue] on the tokens of a value consumes exactly that
    value, whatever follows it. *)
Lemma skipValue_tokens j :
  forall fuel rest, (length (tokens j) <= fuel)%nat ->
    skipValue fuel (tokens j ++ rest) = Some (None, rest).
Proof.
  induction j as [| b | lit | s | items IH | members IH] using json_ind;
    intros fuel rest Hfuel;
    (destruct fuel as [|f]; [pose proof (tokens_nonempty JNull); simpl in *; lia|]);
    try reflexivity.
  - simpl in Hfuel. rewrite length_app in Hfuel. simpl in Hfuel.
    change (skipValue (S f) (tokens (JArray items) ++ rest))
      with (skipLoop (skipValue f) f ((flat_map tokens items ++ [Delim "]"]) ++ rest)).
    rewrite <- app_assoc. simpl. rewrite flat_map_concat_map.
    apply skipLoop_chunks; [| auto | lia |].
    + apply Forall_fmap, Forall_forall. intros v Hv rest'.
      rewrite Forall_forall in IH. apply IH; [done|].
      pose proof (flat_map_tokens_length items v Hv). lia.
    + rewrite length_map. pose proof (flat_map_tokens_count items). lia.
  - simpl in Hfuel. rewrite length_app in Hfuel. simpl in Hfuel.
    fold member_tokens in Hfuel.
    change (skipValue (S f) (tokens (JObject members) ++ rest))
      with (skipLoop (skipValue f) f
              ((flat_map member_tokens members ++ [Delim "}"]) ++ rest)).
    rewrite <- app_assoc. simpl.
    assert (flat_map member_tokens members
            = concat (flat_map (fun kv => [[TString kv.1]; tokens kv.2]) members)) as ->.
    { clear. induction members as [|kv l IHl]; simpl; [done|].
      by rewrite IHl. }
    pose proof (flat_map_member_count members) as Hcount.
    apply skipLoop_chunks; [| auto | lia |].
    + rewrite Forall_forall in IH. apply Forall_forall. intros c Hc.
      apply list_elem_of_In, in_flat_map in Hc as (kv & Hkv & Hc).
      apply list_elem_of_In in Hkv.
      pose proof (flat_map_member_length members kv Hkv).
      simpl in Hc. destruct Hc as [<- | [<- | []]].
      * apply chunk_string. lia.
      * intros rest'. apply IH; [done|lia].
    + assert (length (flat_map (fun kv : string * json => [[TString kv.1]; tokens kv.2]) members)
              = 2 * length members)%nat as ->; [|lia].
      clear. induction members; simpl; lia.
Qed.

Lemma keysInOrder_loop_members (members : list (string * json)) :
  forall fuel keys, (length (flat_map member_tokens members) < fuel)%nat ->
    keysInOrder_loop fuel (flat_map member_tokens members ++ [Delim "}"]) keys
    = Some (Ok (inr (keys ++ members.*1))).
Proof.
  induction members as [|[k v] l IH]; intros fuel keys Hfuel;
    (destruct fuel as [|f]; [lia|]).
  - simpl. by rewrite app_nil_r.
  - simpl in Hfuel. rewrite length_app in Hfuel.
    simpl. rewrite <- app_assoc, skipValue_tokens by lia.
    rewrite IH by lia. by rewrite <- app_assoc.
Qed.

(** What [keysInOrder] returns, on every input it can get. *)
Lemma keysInOrder_fuel_spec fuel (b : option json) :
  (length (NewDecoder b) <= fuel)%nat ->
  keysInOrder_fuel fuel b =
    Some (Ok (match b with
              | None => inl ErrEOF
              | Some (JObject members) => inr (members.*1)
              | Some _ => inl ErrExpectedStart
              end)).
Proof.
  intros Hfuel. destruct b as [[| | | | items | members]|]; try reflexivity.
  unfold keysInOrder_fuel. simpl in *. rewrite length_app in Hfuel. simpl in Hfuel.
  fold member_tokens. apply (keysInOrder_loop_members members fuel []).
  fold member_tokens in Hfuel. lia.
Qed.

Lemma keysInOrder_fuel_enough (b : option json) :
  is_Some (keysInOrder_fuel (S (length (NewDecoder b))) b).
Proof. rewrite keysInOrder_fuel_spec by lia. eauto. Qed.

Lemma keysInOrder_spec (b : option json) :
  keysInOrder b =
    Ok (match b with
        | None => inl ErrEOF
        | Some (JObject members) => inr (members.*1)
        | Some _ => inl ErrExpectedStart
        end).
Proof. unfold keysInOrder. by rewrite keysInOrder_fuel_spec by lia. Qed.

Lemma keysInOrder_object (members : list (string * json)) :
  keysInOrder (Some (JObject members)) = Ok (inr (members.*1)).
Proof. apply keysInOrder_spec. Qed.

(** ** Decoded maps and nesting depth *)

Lemma obj_map_snoc (members : list (string * json)) k v :
  obj_map (members ++ [(k, v)]) = <[k := v]> (obj_map members).
Proof. unfold obj_map. by rewrite foldl_app. Qed.

Lemma obj_map_lookup_elem (members : list (string * json)) k v :
  obj_map members !! k = Some v -> (k, v) ∈ members.
Proof.
  induction members as [|[k' v'] l IH] using rev_ind.
  - unfold obj_map. simpl. by rewrite lookup_empty.
  - rewrite obj_map_snoc, lookup_insert. case_decide as Hk.
    + intros [= <-]. subst. apply elem_of_app. right. by left.
    + intros H. apply elem_of_app. left. auto.
Qed.


Lemma depth_member (members : list (string * json)) k v :
  (k, v) ∈ members -> (depth v < depth (JObject members))%nat.
Proof.
  simpl. induction members as [|kv l IH]; [by intros ?%elem_of_nil|].
  intros [<- | H]%elem_of_cons; simpl; [lia|]. specialize (IH H). lia.
Qed.

Lemma depth_item (items : list json) v :
  v ∈ items -> (depth v < depth (JArray items))%nat.
Proof.
  simpl. induction items as [|w l IH]; [by intros ?%elem_of_nil|].
  intros [<- | H]%elem_of_cons; simpl; [lia|]. specialize (IH H). lia.
Qed.

(** Every value of the map lies strictly below depth [n]. *)
Definition below (n : nat) (m : gmap string json) : Prop :=
  forall k v, m !! k = Some v -> (depth v < n)%nat.

Lemma below_empty n : below n ∅.
Proof. intros k v. by rewrite lookup_empty. Qed.

Lemma below_obj_map (members : list (string * json)) :
  below (depth (JObject members)) (obj_map members).
Proof. intros k v H. eapply depth_member, obj_map_lookup_elem, H. Qed.

Lemma below_mono n n' m : (n <= n')%nat -> below n m -> below n' m.
Proof. intros Hn H k v Hk. specialize (H k v Hk). lia. Qed.

Lemma map_depth_spec (m : gmap string json) :
  (forall k v, m !! k = Some v -> (depth v <= map_depth m)%nat) /\
  (forall d, (forall k v, m !! k = Some v -> (depth v <= d)%nat) ->
     (map_depth m <= d)%nat).
Proof.
  unfold map_depth.
  apply (map_fold_weak_ind
    (fun r (m : gmap string json) =>
       (forall k v, m !! k = Some v -> (depth v <= r)%nat) /\
       (forall d, (forall k v, m !! k = Some v -> (depth v <= d)%nat) -> (r <= d)%nat))).
  - split; [intros k v; by rewrite lookup_empty | lia].
  - intros i x m' r Hi [IH1 IH2]. split.
    + intros k v. rewrite lookup_insert. case_decide.
      * intros [= <-]. lia.
      * intros H'. specialize (IH1 k v H'). lia.
    + intros d Hd.
      assert (depth x <= d)%nat by (apply (Hd i); by rewrite lookup_insert_eq).
      assert (r <= d)%nat; [|lia].
      apply IH2. intros k v Hk. apply (Hd k).
      rewrite lookup_insert_ne; [done|]. intros ->. congruence.
Qed.

Lemma map_depth_lookup (m : gmap string json) k v :
  m !! k = Some v -> (depth v <= map_depth m)%nat.
Proof. apply map_depth_spec. Qed.

Lemma map_depth_obj_map (members : list (string * json)) :
  (map_depth (obj_map members) < depth (JObject members))%nat.
Proof.
  assert (map_depth (obj_map members) <= pred (depth (JObject members)))%nat.
  { apply map_depth_spec. intros k v H. apply below_obj_map in H. lia. }
  simpl in *. lia.
Qed.

(** ** The recursion of [parsePropertyType] *)

Lemma parsePropertyType_body_ext rec1 rec2 (propValue : gmap string json) :
  (forall m, (map_depth m < map_depth propValue)%nat -> rec1 m = rec2 m) ->
  parsePropertyType_body rec1 propValue = parsePropertyType_body rec2 propValue.
Proof.
  intros Hrec. unfold parsePropertyType_body.
  assert (forall k v, propValue !! k = Some v ->
            (assert_map v ≫= rec1) = (assert_map v ≫= rec2)) as Hsub.
  { intros k [] Hk; try reflexivity. simpl. apply Hrec.
    pose proof (map_depth_lookup _ _ _ Hk).
    pose proof (map_depth_obj_map members). lia. }
  destruct (propValue !! "$ref"); [done|].
  destruct (propValue !! "type") as [[| | |t| |]|]; try done.
  repeat (case_match; try done).
  - pose proof (Hsub _ _ ltac:(eassumption)) as E.
    destruct (assert_map _); simpl in *; try done. by rewrite E.
  - pose proof (Hsub _ _ ltac:(eassumption)) as E.
    destruct (assert_map _); simpl in *; try done. by rewrite E.
Qed.

Lemma parsePropertyType_fuel_stable n :
  forall n' (m : gmap string json),
    (map_depth m < n)%nat -> (map_depth m < n')%nat ->
    parsePropertyType_fuel n m = parsePropertyType_fuel n' m.
Proof.
  induction n as [|n IH]; intros [|n'] m Hn Hn'; try lia.
  simpl. apply parsePropertyType_body_ext. intros m' Hm'. apply IH; lia.
Qed.

(** [parsePropertyType] satisfies the recursive equation of the source. *)
Lemma parsePropertyType_unfold (propValue : gmap string json) :
  parsePropertyType propValue
  = parsePropertyType_body parsePropertyType propValue.
Proof.
  unfold parsePropertyType at 1. simpl.
  apply parsePropertyType_body_ext. intros m Hm.
  unfold parsePropertyType. apply parsePropertyType_fuel_stable; lia.
Qed.

(** The equation determines the function: the value at exhausted fuel
    never shows. *)
Lemma parsePropertyType_unique (f : gmap string json -> result string) :
  (forall m, f m = parsePropertyType_body f m) ->
  forall m, f m = parsePropertyType m.
Proof.
  intros Hf m. remember (S (map_depth m)) as n eqn:Hn.
  assert (map_depth m < n)%nat as Hlt by lia. clear Hn. revert m Hlt.
  induction n as [|n IH]; intros m Hlt; [lia|].
  rewrite Hf, parsePropertyType_unfold.
  apply parsePropertyType_body_ext. intros m' Hm'. apply IH. lia.
Qed.

(** ** The recursion of [emitToplevelType] *)

Lemma Unmarshal_map_below (data : option json) (m : gmap string json) :
  Unmarshal data = inr m -> below (depth_opt data) m.
Proof.
  destruct data as [[| | | | |members]|]; simpl; intros [= <-].
  - apply below_empty.
  - apply below_obj_map.
Qed.

Lemma Unmarshal_slice_elem (j : json) (l : list json) v :
  Unmarshal (Some j) = inr l -> v ∈ l -> (depth v < depth j)%nat.
Proof.
  destruct j; simpl; intros [= <-]; [by intros ?%elem_of_nil|].
  apply depth_item.
Qed.

Global Arguments Unmarshal : simpl never.

Lemma maybeParseInheritance_below n (descMap : gmap string json) base descMap' :
  below n descMap ->
  maybeParseInheritance descMap = Ok (base, descMap') ->
  below n descMap'.
Proof.
  intros Hb. unfold maybeParseInheritance.
  destruct (descMap !! "allOf") as [allOf|] eqn:HallOf; [|by intros [= _ <-]].
  destruct (Unmarshal (Some allOf)) as [|slice] eqn:Hslice; [done|]. simpl.
  case_match; [done|].
  destruct (slice !! 0%nat); [|done].
  destruct (Unmarshal (T := gmap string json) (Some _)); [done|]. simpl.
  destruct (slice !! 1%nat) as [own|] eqn:Hown; [|done].
  destruct (Unmarshal (Some own)) as [|m] eqn:Hm; [done|]. simpl.
  destruct (parseRef _); simpl; [|done..]. intros [= _ <-].
  apply Unmarshal_map_below in Hm. simpl in Hm.
  eapply below_mono; [|exact Hm].
  apply list_elem_of_lookup_2 in Hown.
  pose proof (Unmarshal_slice_elem _ _ _ Hslice Hown).
  specialize (Hb _ _ HallOf). lia.
Qed.

Lemma emitProp_ext rec1 rec2 typeName (pm : gmap string json) rm propName st :
  (forall tn, rec1 tn (pm !! "body") = rec2 tn (pm !! "body")) ->
  emitProp rec1 typeName pm rm propName st
  = emitProp rec2 typeName pm rm propName st.
Proof.
  intros Hrec. unfold emitProp. destruct st as [b bodyType].
  repeat (case_match; try done);
    (destruct (orFatal (Unmarshal (pm !! propName))) as [propDesc| |];
       simpl; [|done..]);
    (destruct (propDesc !! "$ref"); [done|]); by rewrite Hrec.
Qed.

Lemma emitProps_ext rec1 rec2 typeName (pm : gmap string json) rm names :
  (forall tn, rec1 tn (pm !! "body") = rec2 tn (pm !! "body")) ->
  forall st, emitProps rec1 typeName pm rm names st
           = emitProps rec2 typeName pm rm names st.
Proof.
  intros Hrec. induction names as [|p names IH]; intros st; [done|].
  simpl. rewrite (emitProp_ext rec1 rec2) by done.
  destruct (emitProp rec2 _ _ _ _ _); simpl; auto.
Qed.

Lemma emitToplevelType_body_ext rec1 rec2 typeName (descJson : option json) :
  (forall tn d, (depth_opt d < depth_opt descJson)%nat -> rec1 tn d = rec2 tn d) ->
  emitToplevelType_body rec1 typeName descJson
  = emitToplevelType_body rec2 typeName descJson.
Proof.
  intros Hrec. unfold emitToplevelType_body.
  destruct (Unmarshal descJson) as [|descMap] eqn:Hdesc; [done|]. simpl.
  apply Unmarshal_map_below in Hdesc.
  destruct (maybeParseInheritance descMap) as [[base descMap']| |] eqn:Hinh; [|done..].
  simpl. pose proof (maybeParseInheritance_below _ _ _ _ Hdesc Hinh) as Hb.
  destruct (descMap' !! "type"); [|done].
  match goal with |- (?r ≫= _) = _ => destruct r as [ty| |]; [|done..] end. simpl.
  case_match; [done|]. case_match; [|done].
  destruct (descMap' !! "properties") as [propsJson|] eqn:Hprops; [|done].
  destruct (Unmarshal (Some propsJson)) as [|pm] eqn:Hpm; [done|]. simpl.
  destruct (keysInOrder _) as [keys| |]; [|done..]. simpl.
  destruct (orFatal keys) as [names| |]; [|done..]. simpl.
  match goal with |- (?r ≫= _) = _ => destruct r as [rm| |]; [|done..] end. simpl.
  rewrite (emitProps_ext rec1 rec2); [done|]. intros tn. apply Hrec.
  apply Unmarshal_map_below in Hpm. simpl in Hpm.
  specialize (Hb _ _ Hprops).
  destruct (pm !! "body") as [body|] eqn:Hbody; simpl; [|lia].
  specialize (Hpm _ _ Hbody). lia.
Qed.

Lemma emitToplevelType_fuel_stable n :
  forall n' typeName (descJson : option json),
    (depth_opt descJson < n)%nat -> (depth_opt descJson < n')%nat ->
    emitToplevelType_fuel n typeName descJson
    = emitToplevelType_fuel n' typeName descJson.
Proof.
  induction n as [|n IH]; intros [|n'] typeName descJson Hn Hn'; try lia.
  simpl. apply emitToplevelType_body_ext. intros tn d Hd. apply IH; lia.
Qed.

(** [emitToplevelType] satisfies the recursive equation of the source. *)
Lemma emitToplevelType_unfold typeName (descJson : option json) :
  emitToplevelType typeName descJson
  = emitToplevelType_body emitToplevelType typeName descJson.
Proof.
  unfold emitToplevelType at 1. simpl.
  apply emitToplevelType_body_ext. intros tn d Hd.
  unfold emitToplevelType. apply emitToplevelType_fuel_stable; lia.
Qed.

Lemma emitToplevelType_unique (f : string -> option json -> result string) :
  (forall tn d, f tn d = emitToplevelType_body f tn d) ->
  forall tn d, f tn d = emitToplevelType tn d.
Proof.
  intros Hf tn d. remember (S (depth_opt d)) as n eqn:Hn.
  assert (depth_opt d < n)%nat as Hlt by lia. clear Hn. revert tn d Hlt.
  induction n as [|n IH]; intros tn d Hlt; [lia|].
  rewrite Hf, emitToplevelType_unfold.
  apply emitToplevelType_body_ext. intros tn' d' Hd'. apply IH. lia.
Qed.

(** ** Strings *)

Lemma app_cons c (s t : string) : String c s +:+ t = String c (s +:+ t).
Proof. reflexivity. Qed.

Lemma app_empty_l (s : string) : EmptyString +:+ s = s.
Proof. reflexivity. Qed.

Lemma app_empty_r (s : string) : s +:+ EmptyString = s.
Proof. induction s as [|c s IH]; [done|]. by rewrite app_cons, IH. Qed.

Lemma app_assoc_s (a b c : string) : (a +:+ b) +:+ c = a +:+ b +:+ c.
Proof. induction a as [|x a IH]; [done|]. by rewrite !app_cons, IH. Qed.

Lemma app_length (a b : string) :
  String.length (a +:+ b) = (String.length a + String.length b)%nat.
Proof. induction a as [|x a IH]; [done|]. rewrite app_cons. simpl. by rewrite IH. Qed.

Lemma eqb_true (a b : string) : (a =? b) = true <-> a = b.
Proof. apply String.eqb_eq. Qed.

Lemma eqb_false (a b : string) : (a =? b) = false <-> a <> b.
Proof. apply String.eqb_neq. Qed.

(** ** One property of a type *)

(** The suppression table of the loop, as one test. *)
Definition suppressed (propName typeName : string) : bool :=
  (propName =? "type") &&
    ((typeName =? "Request") || (typeName =? "Response") || (typeName =? "Event"))
  || (propName =? "command") &&
    negb (typeName =? "Request") && negb (typeName =? "Response")
  || (propName =? "event") && negb (typeName =? "Event")
  || (propName =? "arguments") && (typeName =? "Request").

(** The types whose [body] property is not emitted. *)
Definition bodyless (typeName : string) : bool :=
  (typeName =? "Response") || (typeName =? "Event").

(** The properties of a type that become fields. *)
Definition kept (typeName propName : string) : bool :=
  negb (suppressed propName typeName)
  && negb ((propName =? "body") && bodyless typeName).

(** The line of a field: Go name, Go type and serialization tag. *)
Definition field_line (propName goType : string) (required : bool) : string :=
  tab +:+ goFieldName propName +:+ " " +:+ goType +:+ " "
    +:+ "`json:" +:+ quote +:+ propName
    +:+ (if required then EmptyString else ",omitempty")
    +:+ quote +:+ "`" +:+ nl.

Global Arguments emitProp : simpl never.
Global Arguments parsePropertyType : simpl never.
Global Arguments emitToplevelType : simpl never.
Global Arguments keysInOrder : simpl never.
Global Arguments preamble : simpl never.

(** One iteration of the loop, case by case. *)
Lemma emitProp_cases rec typeName (pm : gmap string json) rm propName b bodyType :
  emitProp rec typeName pm rm propName (b, bodyType) =
    if suppressed propName typeName then Ok (b, bodyType)
    else
      propDesc ← orFatal (Unmarshal (T := gmap string json) (pm !! propName));
      if propName =? "body" then
        if bodyless typeName then Ok (b, bodyType)
        else
          match propDesc !! "$ref" with
          | Some ref =>
              name ← parseRef ref;
              Ok (b +:+ field_line "body" name (isRequired rm "body"), bodyType)
          | None =>
              text ← rec (typeName +:+ "Body") (pm !! "body");
              Ok (b +:+ field_line "body" (typeName +:+ "Body") (isRequired rm "body"),
                  text)
          end
      else
        goType ← parsePropertyType propDesc;
        Ok (b +:+ field_line propName goType (isRequired rm propName), bodyType).
Proof.
  unfold emitProp, suppressed, bodyless.
  destruct ((propName =? "type") && _); [done|].
  destruct ((propName =? "command") && _ && _); [done|].
  destruct ((propName =? "event") && _); [done|].
  destruct ((propName =? "arguments") && _); [done|]. simpl.
  destruct (orFatal _) as [propDesc| |]; [|done..]. simpl.
  destruct (propName =? "body").
  - destruct (_ || _); [done|].
    destruct (propDesc !! "$ref").
    + destruct (parseRef _); [|done..]. simpl.
      destruct (isRequired rm "body"); reflexivity.
    + destruct (rec _ _); [|done..]. simpl.
      destruct (isRequired rm "body"); reflexivity.
  - destruct (parsePropertyType _); [|done..]. simpl.
    destruct (isRequired rm propName); unfold field_line;
      rewrite !app_assoc_s; reflexivity.
Qed.

(** The Go type of the field a kept property becomes. *)
Definition fieldType (typeName : string) (pm : gmap string json)
    (propName : string) : result string :=
  propDesc ← orFatal (Unmarshal (T := gmap string json) (pm !! propName));
  if propName =? "body" then
    match propDesc !! "$ref" with
    | Some ref => parseRef ref
    | None => Ok (typeName +:+ "Body")
    end
  else parsePropertyType propDesc.

(** The body descriptor is an inline description: it has no ["$ref"]. *)
Definition inlineBody (pm : gmap string json) : Prop :=
  exists propDesc : gmap string json,
    Unmarshal (pm !! "body") = inr propDesc /\ propDesc !! "$ref" = None.

(** The loop reaches an inline body that it does not skip. *)
Definition synthesizes (typeName : string) (pm : gmap string json)
    (names : list string) : Prop :=
  "body" ∈ names /\ bodyless typeName = false /\ inlineBody pm.

Definition join (l : list string) : string := foldr String.append EmptyString l.

Definition field_of (rm : gmap string bool) (f : string * string) : string :=
  field_line f.1 f.2 (isRequired rm f.1).

Lemma filter_cons_s {A} (f : A -> bool) x l :
  List.filter f (x :: l) = if f x then x :: List.filter f l else List.filter f l.
Proof. reflexivity. Qed.

Lemma suppressed_body typeName : suppressed "body" typeName = false.
Proof. reflexivity. Qed.

Lemma kept_not_body typeName propName :
  (propName =? "body") = false ->
  kept typeName propName = negb (suppressed propName typeName).
Proof. unfold kept. intros ->. simpl. by rewrite andb_true_r. Qed.

Lemma synthesizes_cons typeName pm k names :
  (k = "body" -> bodyless typeName = false -> ~ inlineBody pm) ->
  synthesizes typeName pm (k :: names) <-> synthesizes typeName pm names.
Proof.
  intros Hk. unfold synthesizes. rewrite elem_of_cons. split.
  - intros ([Heq | Hin] & Hb & Hi); [|done]. by destruct Hk.
  - intros (Hin & Hb & Hi). auto.
Qed.

(** The loop over the property names: the text it appends is one line per
    kept property, in order, and [bodyType] is the text of the body type
    when one is synthesized. *)
Lemma emitProps_shape rec typeName (pm : gmap string json) rm names :
  forall b bodyType b' bodyType',
    emitProps rec typeName pm rm names (b, bodyType) = Ok (b', bodyType') ->
    exists fields : list (string * string),
      fields.*1 = List.filter (kept typeName) names /\
      Forall (fun f => fieldType typeName pm f.1 = Ok f.2) fields /\
      b' = b +:+ join (field_of rm <$> fields) /\
      (synthesizes typeName pm names ->
         rec (typeName +:+ "Body") (pm !! "body") = Ok bodyType') /\
      (~ synthesizes typeName pm names -> bodyType' = bodyType).
Proof.
  induction names as [|k names IH]; intros b bodyType b' bodyType' Hrun.
  { simpl in Hrun. injection Hrun as <- <-. exists [].
    split_and!; [done|done|by rewrite app_empty_r| |done].
    intros (Hin & _). by apply elem_of_nil in Hin. }
  simpl in Hrun. rewrite emitProp_cases in Hrun. rewrite filter_cons_s.
  destruct (suppressed k typeName) eqn:Hsup.
  { (* dropped by the table *)
    simpl in Hrun. apply IH in Hrun as (fields & Hk & Hty & -> & Hs1 & Hs2).
    exists fields. unfold kept at 1. rewrite Hsup. simpl.
    rewrite synthesizes_cons; [done|].
    intros ->. by rewrite suppressed_body in Hsup. }
  destruct (Unmarshal (pm !! k)) as [e|propDesc] eqn:Hdesc; [done|].
  simpl in Hrun.
  destruct (k =? "body") eqn:Hbody.
  - apply eqb_true in Hbody as ->.
    destruct (bodyless typeName) eqn:Hless.
    { (* a body that is skipped *)
      simpl in Hrun. apply IH in Hrun as (fields & Hk & Hty & -> & Hs1 & Hs2).
      exists fields. unfold kept at 1. rewrite Hless. simpl.
      rewrite synthesizes_cons; [done|]. congruence. }
    assert (kept typeName "body" = true) as ->
      by (unfold kept; by rewrite Hless).
    destruct (propDesc !! "$ref") as [ref|] eqn:Href.
    + (* a referenced body *)
      destruct (parseRef ref) as [name| |] eqn:Hname; [|done..]. simpl in Hrun.
      apply IH in Hrun as (fields & Hk & Hty & -> & Hs1 & Hs2).
      exists (("body", name) :: fields). rewrite !fmap_cons, Hk.
      split_and!; [done| |by rewrite app_assoc_s| |].
      * constructor; [|done]. unfold fieldType. simpl. rewrite Hdesc. simpl.
        by rewrite Href.
      * rewrite synthesizes_cons; [done|].
        intros _ _ (pd & Hpd & Hnone). congruence.
      * rewrite synthesizes_cons; [done|].
        intros _ _ (pd & Hpd & Hnone). congruence.
    + (* an inline body *)
      destruct (rec _ _) as [text| |] eqn:Htext; [|done..]. simpl in Hrun.
      apply IH in Hrun as (fields & Hk & Hty & -> & Hs1 & Hs2).
      exists (("body", typeName +:+ "Body") :: fields). rewrite !fmap_cons, Hk.
      split_and!; [done| |by rewrite app_assoc_s| |].
      * constructor; [|done]. unfold fieldType. simpl. rewrite Hdesc. simpl.
        by rewrite Href.
      * intros _. destruct (decide ("body" ∈ names)) as [Hin | Hin].
        -- apply Hs1. unfold synthesizes, inlineBody. eauto.
        -- rewrite Hs2; [done|]. by intros (? & _).
      * intros Hs. destruct Hs. unfold synthesizes, inlineBody.
        split_and!; [by left|done|eauto].
  - (* an ordinary property *)
    destruct (parsePropertyType propDesc) as [goType| |] eqn:Hty'; [|done..].
    simpl in Hrun. apply IH in Hrun as (fields & Hk & Hty & -> & Hs1 & Hs2).
    exists ((k, goType) :: fields).
    rewrite (kept_not_body _ _ Hbody), Hsup, !fmap_cons, Hk. simpl.
    apply eqb_false in Hbody.
    split_and!; [done| |by rewrite app_assoc_s| |].
    + constructor; [|done]. unfold fieldType. simpl. rewrite Hdesc. simpl.
      by apply eqb_false in Hbody as ->.
    + by rewrite synthesizes_cons.
    + by rewrite synthesizes_cons.
Qed.

(** ** One emitted type *)

(** The required map that [emitToplevelType] builds from a description. *)
Definition requiredMapOf (descMap : gmap string json) : result (gmap string bool) :=
  match descMap !! "required" with
  | Some requiredJson =>
      required ← orFatal (Unmarshal (T := list json) (Some requiredJson));
      addRequired required ∅
  | None => Ok ∅
  end.

(** The opening of a struct type, with the embedded base type if any. *)
Definition struct_open (typeName baseType : string) : string :=
  "type " +:+ typeName +:+ " struct {" +:+ nl
    +:+ (if (0 <? String.length baseType)%nat
         then tab +:+ baseType +:+ nl +:+ nl else EmptyString).

(** What follows the closing brace of the primary type. *)
Definition body_tail (bodyType : string) : string :=
  if (0 <? String.length bodyType)%nat then nl +:+ bodyType else EmptyString.

(** The emitted text of an object type that has properties. *)
Lemma emit_object_shape typeName (descJson : option json) text
    (descMap : gmap string json) baseType (own : gmap string json) props :
  emitToplevelType typeName descJson = Ok text ->
  Unmarshal descJson = inr descMap ->
  maybeParseInheritance descMap = Ok (baseType, own) ->
  own !! "type" = Some (JString "object") ->
  own !! "properties" = Some (JObject props) ->
  exists (rm : gmap string bool) (fields : list (string * string)) bodyType,
    requiredMapOf own = Ok rm /\
    fields.*1 = List.filter (kept typeName) props.*1 /\
    Forall (fun f => fieldType typeName (obj_map props) f.1 = Ok f.2) fields /\
    text = struct_open typeName baseType +:+ join (field_of rm <$> fields)
             +:+ "}" +:+ nl +:+ body_tail bodyType /\
    (synthesizes typeName (obj_map props) props.*1 ->
       emitToplevelType (typeName +:+ "Body") (obj_map props !! "body")
       = Ok bodyType) /\
    (~ synthesizes typeName (obj_map props) props.*1 -> bodyType = EmptyString).
Proof.
  intros Hrun Hdesc Hinh Htype Hprops.
  rewrite emitToplevelType_unfold in Hrun. unfold emitToplevelType_body in Hrun.
  rewrite Hdesc in Hrun. simpl in Hrun. rewrite Hinh in Hrun. simpl in Hrun.
  rewrite Htype in Hrun. change (orFatal (Unmarshal (Some (JString "object"))))
    with (Ok (A := string) "object") in Hrun.
  simpl in Hrun. rewrite Hprops in Hrun.
  change (orFatal (Unmarshal (T := gmap string json) (Some (JObject props))))
    with (Ok (obj_map props)) in Hrun.
  simpl in Hrun. rewrite keysInOrder_object in Hrun. simpl in Hrun.
  fold (requiredMapOf own) in Hrun.
  destruct (requiredMapOf own) as [rm| |]; [|done..]. simpl in Hrun.
  destruct (emitProps _ _ _ _ _ _) as [[b bodyType]| |] eqn:Hloop; [|done..].
  simpl in Hrun.
  apply emitProps_shape in Hloop as (fields & Hk & Hty & -> & Hs1 & Hs2).
  exists rm, fields, bodyType. split_and!; try done.
  unfold struct_open, body_tail.
  destruct (0 <? String.length bodyType)%nat, (0 <? String.length baseType)%nat;
    injection Hrun as <-; rewrite ?app_assoc_s, ?app_empty_r; reflexivity.
Qed.

Lemma emit_prefix typeName (descJson : option json) text :
  emitToplevelType typeName descJson = Ok text ->
  exists rest, text = "type " +:+ typeName +:+ " " +:+ rest.
Proof.
  rewrite emitToplevelType_unfold. unfold emitToplevelType_body.
  destruct (orFatal (Unmarshal descJson)); [|done..]. simpl.
  destruct (maybeParseInheritance _) as [[base own]| |]; [|done..]. simpl.
  destruct (own !! "type"); [|done].
  match goal with |- (?r ≫= _) = _ -> _ => destruct r as [ty| |]; [|done..] end.
  simpl. destruct (ty =? "string"); [intros [= <-]; eauto|].
  destruct (ty =? "object"); [|done].
  set (b0 := if (0 <? String.length base)%nat then _ else _).
  assert (exists r0, b0 = "type " +:+ typeName +:+ " " +:+ r0) as [r0 Hb0].
  { subst b0. destruct (0 <? String.length base)%nat; eexists;
      rewrite ?app_assoc_s; reflexivity. }
  rewrite Hb0. clear b0 Hb0.
  destruct (own !! "properties"); [|intros [= <-]; eexists;
    rewrite ?app_assoc_s; reflexivity].
  match goal with |- (?r ≫= _) = _ -> _ => destruct r as [pm| |]; [|done..] end.
  simpl. destruct (keysInOrder _) as [keys| |]; [|done..]. simpl.
  destruct (orFatal keys) as [names| |]; [|done..]. simpl.
  match goal with |- (?r ≫= _) = _ -> _ => destruct r as [rm| |]; [|done..] end.
  simpl. destruct (emitProps _ _ _ _ _ _) as [[b bodyType]| |] eqn:Hloop; [|done..].
  simpl. apply emitProps_shape in Hloop as (fields & _ & _ & -> & _).
  destruct (0 <? String.length bodyType)%nat; intros [= <-]; eexists;
    rewrite ?app_assoc_s; reflexivity.
Qed.


(** * The properties the specification states *)

(** ** Field suppression *)

(** The emitter drops the property for this owner whatever the schema
    says about it: any descriptor, any required set, any state. *)
Definition always_dropped (propName typeName : string) : Prop :=
  forall rec (pm : gmap string json) rm st,
    emitProp rec typeName pm rm propName st = Ok st.

Lemma always_dropped_iff propName typeName :
  always_dropped propName typeName <-> suppressed propName typeName = true.
Proof.
  split.
  - intros H. specialize (H (fun _ _ => Ok EmptyString) ∅ ∅ (EmptyString, EmptyString)).
    rewrite emitProp_cases in H. destruct (suppressed _ _); [done|].
    rewrite lookup_empty in H. discriminate.
  - intros H rec pm rm [b bt]. by rewrite emitProp_cases, H.
Qed.

Lemma eqb_lit (a b : string) : (a =? b) = bool_decide (a = b).
Proof.
  destruct (String.eqb_spec a b).
  - by rewrite bool_decide_eq_true_2.
  - by rewrite bool_decide_eq_false_2.
Qed.

(** C1. Whether a property is dropped depends only on its name and on the
    name of the owning type, by this table: "type" is dropped exactly for
    Request, Response and Event; "command" exactly for owners other than
    Request and Response; "event" exactly for owners other than Event;
    "arguments" exactly for Request; no other name is dropped this way,
    and every other property except "body" yields a field line whenever
    its iteration succeeds. *)
Theorem suppression_table (typeName : string) :
  (always_dropped "type" typeName <->
     typeName = "Request" \/ typeName = "Response" \/ typeName = "Event") /\
  (always_dropped "command" typeName <->
     typeName <> "Request" /\ typeName <> "Response") /\
  (always_dropped "event" typeName <-> typeName <> "Event") /\
  (always_dropped "arguments" typeName <-> typeName = "Request") /\
  (forall propName, always_dropped propName typeName ->
     propName = "type" \/ propName = "command" \/ propName = "event"
     \/ propName = "arguments") /\
  (forall propName rec (pm : gmap string json) rm b bodyType st,
     ~ always_dropped propName typeName -> propName <> "body" ->
     emitProp rec typeName pm rm propName (b, bodyType) = Ok st ->
     exists goType,
       st = (b +:+ field_line propName goType (isRequired rm propName), bodyType)).
Proof.
  split_and!.
  - rewrite always_dropped_iff. unfold suppressed. simpl.
    rewrite ?orb_false_r, ?orb_true_iff, ?eqb_true. tauto.
  - rewrite always_dropped_iff. unfold suppressed. simpl.
    rewrite ?orb_false_r, ?andb_true_iff, ?negb_true_iff, ?eqb_false. tauto.
  - rewrite always_dropped_iff. unfold suppressed. simpl.
    rewrite ?orb_false_r, ?negb_true_iff, ?eqb_false. tauto.
  - rewrite always_dropped_iff. unfold suppressed. simpl.
    rewrite ?orb_false_r, ?eqb_true. tauto.
  - intros propName. rewrite always_dropped_iff. unfold suppressed.
    rewrite !orb_true_iff, !andb_true_iff, !eqb_true. tauto.
  - intros propName rec pm rm b bodyType st Hnot Hbody.
    rewrite always_dropped_iff in Hnot. apply not_true_is_false in Hnot.
    rewrite emitProp_cases, Hnot. apply eqb_false in Hbody. rewrite Hbody.
    destruct (orFatal _) as [propDesc| |]; [|done..]. simpl.
    destruct (parsePropertyType propDesc) as [goType| |]; [|done..]. simpl.
    intros [= <-]. eauto.
Qed.

(** ** Types with a body *)

(** [descJson] describes an object type: after inheritance is resolved it
    has base type [baseType], own description [own] of type "object" and
    the properties [props]. *)
Definition describes_object (descJson : option json) (baseType : string)
    (own : gmap string json) (props : list (string * json)) : Prop :=
  exists descMap : gmap string json,
    Unmarshal descJson = inr descMap /\
    maybeParseInheritance descMap = Ok (baseType, own) /\
    own !! "type" = Some (JString "object") /\
    own !! "properties" = Some (JObject props).







(** ** Order of the output *)

(** The test of the marker loop. *)
Definition isMessageType (typeName : string) : bool :=
  HasSuffix typeName "Event" || HasSuffix typeName "Request"
  || HasSuffix typeName "Response" || (typeName =? "ProtocolMessage").

(** The block of a definition: its text and the blank line after it. *)
Definition block (text : string) : string := text +:+ nl.

(** The marker lines for a list of definition names. *)
Definition marker_lines (typeNames : list string) : string :=
  join ((fun k =>
           let typeName := replaceGoTypename k in
           if isMessageType typeName
           then "func (" +:+ typeName +:+ ") isMessage() {}" +:+ nl
           else EmptyString) <$> typeNames).

Lemma emitMarkers_shape typeNames :
  forall b, emitMarkers typeNames b = b +:+ marker_lines typeNames.
Proof.
  induction typeNames as [|k l IH]; intros b.
  - unfold marker_lines. simpl. by rewrite app_empty_r.
  - unfold marker_lines. simpl. fold (isMessageType (replaceGoTypename k)).
    fold (marker_lines l).
    destruct (isMessageType _); rewrite IH; [by rewrite !app_assoc_s | done].
Qed.

Lemma emitTypes_shape (typeMap : gmap string json) typeNames :
  forall b b',
    emitTypes typeMap typeNames b = Ok b' ->
    exists texts,
      b' = b +:+ join (block <$> texts) /\
      Forall2 (fun k t =>
                 emitToplevelType (replaceGoTypename k) (typeMap !! k) = Ok t)
        typeNames texts.
Proof.
  induction typeNames as [|k l IH]; intros b b' Hrun; simpl in Hrun.
  - injection Hrun as <-. exists []. by rewrite app_empty_r.
  - destruct (emitToplevelType _ _) as [t| |] eqn:Ht; [|done..]. simpl in Hrun.
    apply IH in Hrun as (texts & -> & Hall). exists (t :: texts).
    split; [|by constructor]. unfold block. simpl. by rewrite !app_assoc_s.
Qed.

(** The text handed to the pretty-printer, for the definitions [defs] and
    the printed result [out]: one block per key of [defs], in order, and in
    each block of an object type one field per kept key, in order. *)
Definition blocks_in_order (format_Source : string -> error + string)
    (defs : list (string * json)) (out : string) : Prop :=
  keysInOrder (Some (JObject defs)) = Ok (inr defs.*1) /\
  exists texts,
    format_Source (preamble +:+ join (block <$> texts) +:+ marker_lines defs.*1)
      = inr out /\
    Forall2
      (fun k t =>
         let typeName := replaceGoTypename k in
         emitToplevelType typeName (obj_map defs !! k) = Ok t /\
         (exists rest, t = "type " +:+ typeName +:+ " " +:+ rest) /\
         forall baseType own props,
           describes_object (obj_map defs !! k) baseType own props ->
           keysInOrder (Some (JObject props)) = Ok (inr props.*1) /\
           exists rm (fields : list (string * string)) tail,
             t = struct_open typeName baseType
                   +:+ join (field_of rm <$> fields) +:+ "}" +:+ nl +:+ tail /\
             fields.*1 = List.filter (kept typeName) props.*1)
      defs.*1 texts.

(** C3. The emitted type blocks follow the keys of the "definitions"
    object in source order, each under its (renamed) key, and the fields
    of each object type follow the keys of its "properties" object in
    source order, without the dropped ones; the keys are those read by
    [keysInOrder]. *)
Theorem order_preservation (format_Source : string -> error + string)
    (doc : json) out (m : gmap string json) defs :
  Unmarshal (Some doc) = inr m ->
  m !! "definitions" = Some (JObject defs) ->
  generate format_Source doc = Ok out ->
  blocks_in_order format_Source defs out.
Proof.
  unfold blocks_in_order.
  intros Hm Hdefs Hrun. split; [apply keysInOrder_object|].
  unfold generate in Hrun. rewrite Hm in Hrun. simpl in Hrun.
  rewrite Hdefs in Hrun.
  change (orFatal (Unmarshal (T := gmap string json) (Some (JObject defs))))
    with (Ok (obj_map defs)) in Hrun.
  simpl in Hrun. rewrite keysInOrder_object in Hrun. simpl in Hrun.
  destruct (emitTypes _ _ _) as [b| |] eqn:Htypes; [|done..]. simpl in Hrun.
  apply emitTypes_shape in Htypes as (texts & -> & Hall).
  rewrite emitMarkers_shape, app_assoc_s in Hrun.
  exists texts. split.
  { destruct (format_Source _); simpl in Hrun; congruence. }
  eapply Forall2_impl; [exact Hall|]. intros k t Ht. simpl in Ht |- *.
  split_and!; [exact Ht|by eapply emit_prefix|].
  intros baseType own props (descMap & Hdesc & Hinh & Htype & Hprops).
  split; [apply keysInOrder_object|].
  destruct (emit_object_shape _ _ _ _ _ _ _ Ht Hdesc Hinh Htype Hprops)
    as (rm & fields & bodyType & _ & Hk & _ & -> & _).
  by exists rm, fields, (body_tail bodyType).
Qed.

(** ** Required and optional fields *)

Definition is_name (k : string) (r : json) : bool :=
  match r with
  | JString s => s =? k
  | _ => false
  end.

(** The property name is listed in the "required" array of the
    description. *)
Definition listed (own : gmap string json) (k : string) : bool :=
  match own !! "required" with
  | Some (JArray required) => existsb (is_name k) required
  | _ => false
  end.

Definition required_tag (k : string) : string :=
  "`json:" +:+ quote +:+ k +:+ quote +:+ "`".

Definition optional_tag (k : string) : string :=
  "`json:" +:+ quote +:+ k +:+ ",omitempty" +:+ quote +:+ "`".

(** A field line with a given tag. *)
Definition tagged_line (f : string * string) (tag : string) : string :=
  tab +:+ goFieldName f.1 +:+ " " +:+ f.2 +:+ " " +:+ tag +:+ nl.

Lemma field_line_tag propName goType (required : bool) :
  field_line propName goType required
  = tagged_line (propName, goType)
      (if required then required_tag propName else optional_tag propName).
Proof.
  unfold field_line, tagged_line, required_tag, optional_tag.
  destruct required; simpl; rewrite ?app_assoc_s; reflexivity.
Qed.

Lemma isRequired_insert (rm : gmap string bool) s k :
  isRequired (<[s := true]> rm) k = (s =? k) || isRequired rm k.
Proof.
  unfold isRequired. rewrite lookup_insert, eqb_lit.
  case_decide; [by rewrite bool_decide_eq_true_2|by rewrite bool_decide_eq_false_2].
Qed.

Lemma addRequired_spec required :
  forall (rm0 rm : gmap string bool),
    addRequired required rm0 = Ok rm ->
    forall k, isRequired rm k = existsb (is_name k) required || isRequired rm0 k.
Proof.
  induction required as [|r l IH]; intros rm0 rm Hrun k; simpl in Hrun.
  - by injection Hrun as <-.
  - destruct r; try done. simpl in Hrun.
    rewrite (IH _ _ Hrun), isRequired_insert. simpl. by rewrite orb_assoc, (orb_comm _ (s =? k)).
Qed.

Lemma requiredMapOf_spec (own : gmap string json) rm :
  requiredMapOf own = Ok rm -> forall k, isRequired rm k = listed own k.
Proof.
  unfold requiredMapOf, listed. intros Hrun k.
  destruct (own !! "required") as [requiredJson|]; [|by injection Hrun as <-].
  destruct requiredJson; try done.
  - injection Hrun as <-. done.
  - change (orFatal (Unmarshal (T := list json) (Some (JArray items))))
      with (Ok items) in Hrun. simpl in Hrun.
    rewrite (addRequired_spec _ _ _ Hrun). unfold isRequired.
    by rewrite lookup_empty, orb_false_r.
Qed.

Lemma listed_iff (own : gmap string json) k :
  listed own k = true <->
  exists required, own !! "required" = Some (JArray required) /\ JString k ∈ required.
Proof.
  unfold listed. split.
  - destruct (own !! "required") as [[]|]; try done.
    intros (r & Hin & Hr)%existsb_exists. exists items. split; [done|].
    destruct r; try done. simpl in Hr. apply eqb_true in Hr as ->.
    by apply list_elem_of_In.
  - intros (required & -> & Hin). apply existsb_exists. exists (JString k).
    split; [by apply list_elem_of_In|]. simpl. by apply eqb_true.
Qed.

(** The tags of the fields in the emitted [text] of an object type follow
    the "required" array of its own description. *)
Definition tags_by_required (typeName baseType : string) (own : gmap string json)
    (props : list (string * json)) (text : string) : Prop :=
  (forall k, listed own k = true <->
     exists required,
       own !! "required" = Some (JArray required) /\ JString k ∈ required) /\
  exists (fields : list (string * string)) tail,
    fields.*1 = List.filter (kept typeName) props.*1 /\
    text = struct_open typeName baseType
             +:+ join ((fun f =>
                          tagged_line f
                            (if listed own f.1 then required_tag f.1
                             else optional_tag f.1)) <$> fields)
             +:+ "}" +:+ nl +:+ tail /\
    (own !! "required" = None ->
       text = struct_open typeName baseType
                +:+ join ((fun f => tagged_line f (optional_tag f.1)) <$> fields)
                +:+ "}" +:+ nl +:+ tail).

(** C7. In an emitted object type every field whose property name is
    listed in the "required" array carries the tag with the bare property
    name, every other field carries the tag with omitempty, and a
    description without "required" marks no field as required. *)
Theorem required_fidelity typeName (descJson : option json) text baseType
    (own : gmap string json) props :
  describes_object descJson baseType own props ->
  emitToplevelType typeName descJson = Ok text ->
  tags_by_required typeName baseType own props text.
Proof.
  unfold tags_by_required.
  intros (descMap & Hdesc & Hinh & Htype & Hprops) Hrun.
  split; [apply listed_iff|].
  destruct (emit_object_shape _ _ _ _ _ _ _ Hrun Hdesc Hinh Htype Hprops)
    as (rm & fields & bodyType & Hrm & Hk & _ & -> & _).
  exists fields, (body_tail bodyType). split; [done|].
  assert (field_of rm <$> fields
          = (fun f => tagged_line f
               (if listed own f.1 then required_tag f.1 else optional_tag f.1))
              <$> fields) as ->.
  { apply list_fmap_ext. intros i [k ty] _. unfold field_of. simpl.
    by rewrite field_line_tag, (requiredMapOf_spec _ _ Hrm). }
  split; [done|]. intros Hnone. do 2 f_equal. f_equal.
  apply list_fmap_ext. intros i [k ty] _. unfold listed. by rewrite Hnone.
Qed.

(** ** Field names *)

Definition alnum (c : ascii) : bool := is_digit c || is_lower c || is_upper c.

(** A word: ASCII letters and digits only. *)
Fixpoint is_word (w : string) : bool :=
  match w with
  | EmptyString => true
  | String c w' => alnum c && is_word w'
  end.

(** Title case of one word: its first letter in upper case. *)
Definition capitalize (w : string) : string :=
  match w with
  | EmptyString => EmptyString
  | String c w' => String (ToTitle c) w'
  end.

(** [goFieldName] when the character before the string is [prev]. *)
Definition goFieldName_from (prev : ascii) (s : string) : string :=
  ReplaceAll (Title_from prev (ReplaceAll s "_" " ")) " " EmptyString.

Lemma alnum_facts c :
  alnum c = true ->
  isSeparator c = false /\ Ascii.eqb c "_" = false /\ Ascii.eqb c " " = false
  /\ Ascii.eqb (ToTitle c) " " = false.
Proof.
  destruct c as [[] [] [] [] [] [] [] []]; vm_compute; intros; try discriminate;
    repeat split.
Qed.

Lemma separator_space : isSeparator " " = true.
Proof. reflexivity. Qed.

Lemma goFieldName_from_underscore prev rest :
  goFieldName_from prev (String "_" rest) = goFieldName_from " " rest.
Proof.
  unfold goFieldName_from. simpl. destruct (isSeparator prev); reflexivity.
Qed.

(** Inside a word nothing changes. *)
Lemma goFieldName_from_inside w :
  is_word w = true ->
  forall prev rest, isSeparator prev = false ->
    exists prev', isSeparator prev' = false /\
      goFieldName_from prev (w +:+ rest) = w +:+ goFieldName_from prev' rest.
Proof.
  induction w as [|c w IH]; intros Hw prev rest Hprev; [by exists prev|].
  simpl in Hw. apply andb_true_iff in Hw as [Hc Hw].
  destruct (alnum_facts c Hc) as (Hsep & Hus & Hsp & _).
  destruct (IH Hw c rest Hsep) as (prev' & Hprev' & Heq).
  exists prev'. split; [done|].
  unfold goFieldName_from in *. rewrite app_cons. simpl.
  rewrite Hus. simpl. rewrite Hprev, Hsp. by rewrite Heq.
Qed.

(** At the start of a word the first letter is put in title case. *)
Lemma goFieldName_from_word w :
  is_word w = true ->
  forall prev rest, isSeparator prev = true ->
    exists prev',
      (w = EmptyString \/ isSeparator prev' = false) /\
      (w = EmptyString -> prev' = prev) /\
      goFieldName_from prev (w +:+ rest) = capitalize w +:+ goFieldName_from prev' rest.
Proof.
  destruct w as [|c w]; intros Hw prev rest Hprev.
  { exists prev. auto. }
  simpl in Hw. apply andb_true_iff in Hw as [Hc Hw].
  destruct (alnum_facts c Hc) as (Hsep & Hus & Hsp & Htsp).
  destruct (goFieldName_from_inside w Hw c rest Hsep) as (prev' & Hprev' & Heq).
  exists prev'. split_and!; [by right|done|].
  unfold goFieldName_from in *. rewrite app_cons. simpl.
  rewrite Hus. simpl. rewrite Hprev, Htsp. by rewrite Heq.
Qed.

Lemma goFieldName_from_words words :
  forallb is_word words = true ->
  forall prev, isSeparator prev = true ->
    goFieldName_from prev (String.concat "_" words) = join (capitalize <$> words).
Proof.
  induction words as [|w [|w2 l] IH]; intros Hw prev Hprev.
  - reflexivity.
  - simpl in Hw. apply andb_true_iff in Hw as [Hw _].
    destruct (goFieldName_from_word w Hw prev EmptyString Hprev) as (prev' & _ & _ & Heq).
    rewrite app_empty_r in Heq. simpl. by rewrite Heq.
  - change (forallb is_word (w :: w2 :: l))
      with (is_word w && forallb is_word (w2 :: l)) in Hw.
    apply andb_true_iff in Hw as [Hw Hl].
    change (String.concat "_" (w :: w2 :: l))
      with (w +:+ String "_" (String.concat "_" (w2 :: l))).
    destruct (goFieldName_from_word w Hw prev
                (String "_" (String.concat "_" (w2 :: l))) Hprev)
      as (prev' & _ & _ & ->).
    rewrite goFieldName_from_underscore, (IH Hl " "%char separator_space).
    reflexivity.
Qed.

(** The names and tags of the fields in the emitted [text] of an object
    type. *)
Definition fields_named (typeName baseType : string)
    (props : list (string * json)) (text : string) : Prop :=
  (forall words, forallb is_word words = true ->
     goFieldName (String.concat "_" words) = join (capitalize <$> words)) /\
  goFieldName "__some_property_name" = "SomePropertyName" /\
  exists (rm : gmap string bool) (fields : list (string * string)) tail,
    fields.*1 = List.filter (kept typeName) props.*1 /\
    text = struct_open typeName baseType
             +:+ join ((fun f =>
                          tab +:+ goFieldName f.1 +:+ " " +:+ f.2 +:+ " "
                            +:+ "`json:" +:+ quote +:+ f.1
                            +:+ (if isRequired rm f.1 then EmptyString
                                 else ",omitempty")
                            +:+ quote +:+ "`" +:+ nl) <$> fields)
             +:+ "}" +:+ nl +:+ tail.

(** C9. The name of an emitted field is [goFieldName] of the property
    name: underscores separate words, each word gets its first letter in
    title case and the words are joined, so "__some_property_name" becomes
    "SomePropertyName"; the tag of the field holds the property name as it
    is in the schema. *)
Theorem field_naming typeName (descJson : option json) text baseType
    (own : gmap string json) props :
  describes_object descJson baseType own props ->
  emitToplevelType typeName descJson = Ok text ->
  fields_named typeName baseType props text.
Proof.
  unfold fields_named.
  intros (descMap & Hdesc & Hinh & Htype & Hprops) Hrun. split_and!.
  - intros words Hwords.
    apply (goFieldName_from_words words Hwords " "%char separator_space).
  - reflexivity.
  - destruct (emit_object_shape _ _ _ _ _ _ _ Hrun Hdesc Hinh Htype Hprops)
      as (rm & fields & bodyType & _ & Hk & _ & -> & _).
    by exists rm, fields, (body_tail bodyType).
Qed.

(** ** Property types *)

(** C6. The property-type mapper, in priority order: a "$ref" decides the
    type whatever "type" says; without "$ref" a missing "type" is fatal;
    "string", "integer" and "boolean" map to string, int and bool; "array"
    maps to a slice of the mapped "items" and is fatal without "items";
    "object" maps to a string-keyed map of the mapped
    "additionalProperties" and is fatal without it; a "type" that is a
    JSON list maps to interface{}; every other discriminator is fatal. *)
Theorem property_type_mapping (propValue : gmap string json) :
  (forall ref, propValue !! "$ref" = Some ref ->
     parsePropertyType propValue = parseRef ref) /\
  (propValue !! "$ref" = None ->
     (propValue !! "type" = None -> is_fatal (parsePropertyType propValue)) /\
     (propValue !! "type" = Some (JString "string") ->
        parsePropertyType propValue = Ok "string") /\
     (propValue !! "type" = Some (JString "integer") ->
        parsePropertyType propValue = Ok "int") /\
     (propValue !! "type" = Some (JString "boolean") ->
        parsePropertyType propValue = Ok "bool") /\
     (propValue !! "type" = Some (JString "array") ->
        (propValue !! "items" = None -> is_fatal (parsePropertyType propValue)) /\
        (forall items, propValue !! "items" = Some (JObject items) ->
           parsePropertyType propValue =
             (elemType ← parsePropertyType (obj_map items); Ok ("[]" +:+ elemType)))) /\
     (propValue !! "type" = Some (JString "object") ->
        (propValue !! "additionalProperties" = None ->
           is_fatal (parsePropertyType propValue)) /\
        (forall additional,
           propValue !! "additionalProperties" = Some (JObject additional) ->
           parsePropertyType propValue =
             (valueType ← parsePropertyType (obj_map additional);
              Ok ("map[string]" +:+ valueType)))) /\
     (forall l, propValue !! "type" = Some (JArray l) ->
        parsePropertyType propValue = Ok "interface{}") /\
     (forall t, propValue !! "type" = Some t ->
        (forall l, t <> JArray l) ->
        t <> JString "string" -> t <> JString "integer" ->
        t <> JString "boolean" -> t <> JString "array" ->
        t <> JString "object" ->
        is_fatal (parsePropertyType propValue))).
Proof.
  split.
  { intros ref Href. rewrite parsePropertyType_unfold.
    unfold parsePropertyType_body. by rewrite Href. }
  intros Href. rewrite parsePropertyType_unfold. unfold parsePropertyType_body.
  rewrite Href. split_and!.
  - by intros ->.
  - by intros ->.
  - by intros ->.
  - by intros ->.
  - intros ->. simpl. split; [by intros ->|]. by intros items ->.
  - intros ->. simpl. split; [by intros ->|]. by intros additional ->.
  - by intros l ->.
  - intros t -> Hl Hs Hi Hb Ha Ho. destruct t as [| | |s| |]; try done.
    + repeat match goal with
             | |- context [?a =? ?b] =>
                 destruct (String.eqb_spec a b) as [->|_]; [congruence|]
             end.
      done.
    + by destruct (Hl items).
Qed.

(** ** Inheritance *)



(** The part of [emitToplevelType] after the opening of a struct type. *)
Definition emitObject (rec : string -> option json -> result string)
    (typeName : string) (own : gmap string json) (b : string) : result string :=
  match own !! "properties" with
  | None => Ok (b +:+ "}" +:+ nl)
  | Some propsJson =>
      propsMapOfJson ← orFatal (Unmarshal (T := gmap string json) (Some propsJson));
      keys ← keysInOrder (own !! "properties");
      propsNamesInOrder ← orFatal keys;
      requiredMap ← requiredMapOf own;
      '(b, bodyType) ←
        emitProps rec typeName propsMapOfJson requiredMap
          propsNamesInOrder (b, EmptyString);
      let b := b +:+ "}" +:+ nl in
      if (0 <? String.length bodyType)%nat
      then Ok (b +:+ nl +:+ bodyType) else Ok b
  end.

Lemma emit_object typeName (descJson : option json)
    (descMap : gmap string json) baseType (own : gmap string json) :
  Unmarshal descJson = inr descMap ->
  maybeParseInheritance descMap = Ok (baseType, own) ->
  own !! "type" = Some (JString "object") ->
  emitToplevelType typeName descJson
  = emitObject emitToplevelType typeName own (struct_open typeName baseType).
Proof.
  intros Hdesc Hinh Htype. rewrite emitToplevelType_unfold.
  unfold emitToplevelType_body. rewrite Hdesc. simpl. rewrite Hinh. simpl.
  rewrite Htype. change (orFatal (Unmarshal (Some (JString "object"))))
    with (Ok (A := string) "object").
  simpl. unfold emitObject, struct_open.
  destruct (own !! "properties"); destruct (0 <? String.length baseType)%nat;
    rewrite ?app_assoc_s, ?app_empty_r; reflexivity.
Qed.



(** ** References and the renamed type *)

Lemma replaceGoTypename_not_Message name : replaceGoTypename name <> "Message".
Proof.
  unfold replaceGoTypename. destruct (String.eqb_spec name "Message"); done.
Qed.

Lemma parseRef_not_Message ref name : parseRef ref = Ok name -> name <> "Message".
Proof.
  unfold parseRef. destruct (assert_string ref) as [s| |]; [|done..]. simpl.
  destruct (negb _); [done|]. intros [= <-]. apply replaceGoTypename_not_Message.
Qed.

Lemma parsePropertyType_not_Message (propValue : gmap string json) goType :
  parsePropertyType propValue = Ok goType -> goType <> "Message".
Proof.
  rewrite parsePropertyType_unfold. unfold parsePropertyType_body.
  destruct (propValue !! "$ref"); [apply parseRef_not_Message|].
  destruct (propValue !! "type") as [[| | |t| |]|]; try done.
  - repeat (case_match; [intros [= <-]; done|]).
    case_match.
    { case_match; [|done]. destruct (assert_map _); [|done..]. simpl.
      destruct (parsePropertyType _); [|done..]. simpl. by intros [= <-]. }
    case_match; [|done].
    case_match; [|done]. destruct (assert_map _); [|done..]. simpl.
    destruct (parsePropertyType _); [|done..]. simpl. by intros [= <-].
  - by intros [= <-].
Qed.

Lemma HasPrefix_app (pre s : string) : HasPrefix (pre +:+ s) pre = true.
Proof.
  unfold HasPrefix. induction pre as [|c pre IH]; [by destruct s|].
  rewrite app_cons. simpl. by destruct (ascii_dec c c).
Qed.

Lemma string_drop_app (pre s : string) :
  string_drop (String.length pre) (pre +:+ s) = s.
Proof. induction pre as [|c pre IH]; [by destruct s|]. by rewrite app_cons. Qed.

Lemma parseRef_definitions name :
  parseRef (JString ("#/definitions/" +:+ name)) = Ok (replaceGoTypename name).
Proof.
  unfold parseRef, assert_string, mbind, result_bind.
  rewrite HasPrefix_app. cbn [negb].
  change 14%nat with (String.length "#/definitions/").
  by rewrite string_drop_app.
Qed.

Lemma body_name_not_Message typeName : typeName +:+ "Body" <> "Message".
Proof.
  intros H. pose proof (f_equal String.length H) as Hlen.
  rewrite app_length in Hlen. simpl in Hlen.
  destruct typeName as [|a [|b [|c [|d t]]]]; simpl in Hlen; try lia.
  rewrite !app_cons, app_empty_l in H. discriminate.
Qed.

(** C4. A reference "#/definitions/<Name>" resolves to <Name>, except that
    "Message" resolves to "ErrorMessage"; the same renaming is applied to
    the key of every definition, both where its type is emitted and where
    its marker is decided, so no type name the generator produces is
    "Message". *)
Theorem reference_resolution :
  (forall name,
     parseRef (JString ("#/definitions/" +:+ name)) = Ok (replaceGoTypename name)) /\
  (forall name, name <> "Message" -> replaceGoTypename name = name) /\
  replaceGoTypename "Message" = "ErrorMessage" /\
  (forall ref name, parseRef ref = Ok name -> name <> "Message") /\
  (forall (propValue : gmap string json) goType,
     parsePropertyType propValue = Ok goType -> goType <> "Message") /\
  (forall typeName, typeName +:+ "Body" <> "Message") /\
  (forall (typeMap : gmap string json) typeNames b b',
     emitTypes typeMap typeNames b = Ok b' ->
     exists texts,
       b' = b +:+ join (block <$> texts) /\
       Forall2 (fun k t =>
                  replaceGoTypename k <> "Message" /\
                  emitToplevelType (replaceGoTypename k) (typeMap !! k) = Ok t /\
                  exists rest, t = "type " +:+ replaceGoTypename k +:+ " " +:+ rest)
         typeNames texts) /\
  (forall typeNames b,
     emitMarkers typeNames b =
       b +:+ join ((fun k =>
                      if isMessageType (replaceGoTypename k)
                      then "func (" +:+ replaceGoTypename k +:+ ") isMessage() {}" +:+ nl
                      else EmptyString) <$> typeNames)).
Proof.
  split_and!.
  - apply parseRef_definitions.
  - intros name Hne. unfold replaceGoTypename.
    by destruct (String.eqb_spec name "Message").
  - reflexivity.
  - apply parseRef_not_Message.
  - apply parsePropertyType_not_Message.
  - apply body_name_not_Message.
  - intros typeMap typeNames b b' Hrun.
    apply emitTypes_shape in Hrun as (texts & -> & Hall).
    exists texts. split; [done|]. eapply Forall2_impl; [exact Hall|].
    intros k t Ht. simpl in Ht.
    split_and!; [apply replaceGoTypename_not_Message|exact Ht|by eapply emit_prefix].
  - apply emitMarkers_shape.
Qed.

(** ** Failures *)


Lemma is_fatal_aborts {A} (r : result A) : is_fatal r -> aborts r.
Proof. by destruct r. Qed.






(** ** Descriptors of dropped properties *)



(** The driver with a pretty-printer that returns its input. *)
Definition generate_plain : json -> result string := generate inr.




(** * The scenarios of the specification, as instances *)

Definition string_prop : json := JObject [("type", JString "string")].
Definition integer_prop : json := JObject [("type", JString "integer")].
Definition boolean_prop : json := JObject [("type", JString "boolean")].

Definition foo_props : list (string * json) :=
  [("a", string_prop); ("b", integer_prop)].

Definition foo_members : list (string * json) :=
  [("type", JString "object");
   ("properties", JObject foo_props);
   ("required", JArray [JString "a"])].

Definition foo_ref : list (string * json) :=
  [("$ref", JString "#/definitions/Foo")].

Definition bar_body : json :=
  JObject [("type", JString "object");
           ("properties", JObject [("some_count", integer_prop)])].

Definition bar_props : list (string * json) :=
  [("c", boolean_prop); ("body", bar_body)].

Definition bar_own : list (string * json) :=
  [("type", JString "object"); ("properties", JObject bar_props)].

Definition bar_members : list (string * json) :=
  [("allOf", JArray [JObject foo_ref; JObject bar_own])].

Definition spec_defs : list (string * json) :=
  [("Foo", JObject foo_members);
   ("Bar", JObject bar_members);
   ("Message", JObject [("type", JString "string")])].

Definition spec_schema : json := JObject [("definitions", JObject spec_defs)].

Definition text_of (r : result string) : string :=
  match r with
  | Ok text => text
  | _ => EmptyString
  end.

Definition foo_text : string :=
  Eval vm_compute in text_of (emitToplevelType "Foo" (Some (JObject foo_members))).

Definition bar_text : string :=
  Eval vm_compute in text_of (emitToplevelType "Bar" (Some (JObject bar_members))).

Definition spec_out : string :=
  Eval vm_compute in text_of (generate_plain spec_schema).

Example foo_emitted :
  foo_text =
    "type Foo struct {" +:+ nl
    +:+ tab +:+ "A string `json:" +:+ quote +:+ "a" +:+ quote +:+ "`" +:+ nl
    +:+ tab +:+ "B int `json:" +:+ quote +:+ "b,omitempty" +:+ quote +:+ "`" +:+ nl
    +:+ "}" +:+ nl.
Proof. reflexivity. Qed.

Example bar_emitted :
  bar_text =
    "type Bar struct {" +:+ nl
    +:+ tab +:+ "Foo" +:+ nl +:+ nl
    +:+ tab +:+ "C bool `json:" +:+ quote +:+ "c,omitempty" +:+ quote +:+ "`" +:+ nl
    +:+ tab +:+ "Body BarBody `json:" +:+ quote +:+ "body,omitempty" +:+ quote +:+ "`" +:+ nl
    +:+ "}" +:+ nl +:+ nl
    +:+ "type BarBody struct {" +:+ nl
    +:+ tab +:+ "SomeCount int `json:" +:+ quote +:+ "some_count,omitempty" +:+ quote +:+ "`" +:+ nl
    +:+ "}" +:+ nl.
Proof. reflexivity. Qed.

Lemma foo_describes :
  describes_object (Some (JObject foo_members)) EmptyString
    (obj_map foo_members) foo_props.
Proof. exists (obj_map foo_members). split_and!; reflexivity. Qed.

Lemma bar_describes :
  describes_object (Some (JObject bar_members)) "Foo" (obj_map bar_own) bar_props.
Proof. exists (obj_map bar_members). split_and!; reflexivity. Qed.


Lemma order_preservation_witness :
  generate_plain spec_schema = Ok spec_out /\
  blocks_in_order inr spec_defs spec_out.
Proof.
  split; [reflexivity|].
  apply (order_preservation inr spec_schema spec_out
           (obj_map [("definitions", JObject spec_defs)]) spec_defs);
    reflexivity.
Defined.

Lemma required_fidelity_witness :
  emitToplevelType "Foo" (Some (JObject foo_members)) = Ok foo_text /\
  tags_by_required "Foo" EmptyString (obj_map foo_members) foo_props foo_text.
Proof.
  split; [reflexivity|].
  apply (required_fidelity "Foo" (Some (JObject foo_members)) foo_text
           EmptyString (obj_map foo_members) foo_props).
  - apply foo_describes.
  - reflexivity.
Defined.

Lemma field_naming_witness :
  emitToplevelType "Bar" (Some (JObject bar_members)) = Ok bar_text /\
  fields_named "Bar" "Foo" bar_props bar_text.
Proof.
  split; [reflexivity|].
  apply (field_naming "Bar" (Some (JObject bar_members)) bar_text "Foo"
           (obj_map bar_own) bar_props).
  - apply bar_describes.
  - reflexivity.
Defined.

Definition array_of_messages : gmap string json :=
  obj_map [("type", JString "array");
           ("items", JObject [("$ref", JString "#/definitions/Message")])].

Lemma property_type_mapping_witness :
  array_of_messages !! "$ref" = None /\
  parsePropertyType array_of_messages = Ok "[]ErrorMessage".
Proof.
  split; [reflexivity|].
  destruct (property_type_mapping array_of_messages) as [_ Hnoref].
  destruct (Hnoref eq_refl) as (_ & _ & _ & _ & Harray & _).
  destruct (Harray eq_refl) as [_ Hitems].
  rewrite (Hitems [("$ref", JString "#/definitions/Message")] eq_refl).
  reflexivity.
Defined.




(** * Further properties of the generator *)

(** ** The ordered reader *)





(** ** Names *)

(** X3. [replaceGoTypename] is idempotent and changes only "Message"; it
    is not injective: two names get the same Go name exactly when they are
    equal or are "Message" and "ErrorMessage". *)
Theorem replaceGoTypename_collision :
  (forall n, replaceGoTypename (replaceGoTypename n) = replaceGoTypename n) /\
  (forall n, replaceGoTypename n <> n <-> n = "Message") /\
  (forall a b,
     replaceGoTypename a = replaceGoTypename b <->
     a = b \/ (a = "Message" /\ b = "ErrorMessage")
     \/ (a = "ErrorMessage" /\ b = "Message")).
Proof.
  assert (forall n, replaceGoTypename n = if bool_decide (n = "Message")
                                          then "ErrorMessage" else n) as Hdef.
  { intros n. unfold replaceGoTypename. by rewrite eqb_lit. }
  split_and!.
  - intros n. rewrite !Hdef. repeat case_bool_decide; congruence.
  - intros n. rewrite Hdef. case_bool_decide; split; intros; congruence.
  - intros a b. rewrite !Hdef. repeat case_bool_decide; split; intros; subst;
      try tauto; try (intuition congruence).
Qed.

Lemma HasPrefix_split (pre : string) :
  forall s, HasPrefix s pre = true ->
    s = pre +:+ string_drop (String.length pre) s.
Proof.
  unfold HasPrefix. induction pre as [|c pre IH]; intros s Hs.
  { by destruct s. }
  destruct s as [|c' s]; [done|]. simpl in Hs.
  destruct (ascii_dec c c') as [<-|]; [|done].
  rewrite app_cons. simpl. f_equal. by apply IH.
Qed.

(** X4. [parseRef] returns a name exactly for the strings that start with
    "#/definitions/", the rest of the string after renaming (the empty rest
    included); every other string is fatal, and only a value that is not a
    string panics. *)
Theorem parseRef_outcomes (ref : json) :
  (forall name, parseRef ref = Ok name <->
     exists n, ref = JString ("#/definitions/" +:+ n) /\ name = replaceGoTypename n) /\
  (is_fatal (parseRef ref) <->
     exists s, ref = JString s /\ HasPrefix s "#/definitions/" = false) /\
  ((exists msg, parseRef ref = Panic msg) <-> forall s, ref <> JString s) /\
  parseRef (JString "#/definitions/") = Ok EmptyString.
Proof.
  split_and!.
  - intros name. split.
    + unfold parseRef. destruct ref; try done. simpl.
      destruct (HasPrefix s "#/definitions/") eqn:Hpre; [|done]. simpl.
      intros [= <-]. exists (string_drop 14 s). split; [|done].
      f_equal. by apply (HasPrefix_split "#/definitions/").
    + intros (n & -> & ->). apply parseRef_definitions.
  - unfold parseRef. split.
    + destruct ref; try done. simpl.
      destruct (HasPrefix s "#/definitions/") eqn:Hpre; [done|]. eauto.
    + intros (s & -> & Hs). simpl. by rewrite Hs.
  - unfold parseRef. split.
    + intros [msg H] s ->. simpl in H. by destruct (negb _).
    + intros H. destruct ref; simpl; eauto. by destruct (H s).
  - reflexivity.
Qed.

(** ** Field names, character by character *)

Fixpoint contains (c : ascii) (s : string) : bool :=
  match s with
  | EmptyString => false
  | String x s' => Ascii.eqb x c || contains c s'
  end.

(** The characters that [goFieldName] removes. *)
Definition is_break (c : ascii) : bool := Ascii.eqb c "_" || Ascii.eqb c " ".

Fixpoint count_breaks (s : string) : nat :=
  match s with
  | EmptyString => 0
  | String c s' => (if is_break c then 1 else 0) + count_breaks s'
  end.

Lemma ToTitle_facts c :
  Ascii.eqb (ToTitle c) "_" = Ascii.eqb c "_" /\
  Ascii.eqb (ToTitle c) " " = Ascii.eqb c " " /\
  is_lower (ToTitle c) = false.
Proof. destruct c as [[] [] [] [] [] [] [] []]; vm_compute; repeat split. Qed.

Lemma goFieldName_from_cons prev c s :
  goFieldName_from prev (String c s) =
    if is_break c then goFieldName_from " " s
    else String (if isSeparator prev then ToTitle c else c) (goFieldName_from c s).
Proof.
  unfold goFieldName_from, is_break.
  destruct (Ascii.eqb_spec c "_") as [->|Hus].
  { simpl. by destruct (isSeparator prev). }
  destruct (Ascii.eqb_spec c " ") as [->|Hsp].
  { simpl. by destruct (isSeparator prev). }
  simpl. apply Ascii.eqb_neq in Hus, Hsp. rewrite Hus. simpl.
  destruct (ToTitle_facts c) as (_ & Hsp' & _).
  destruct (isSeparator prev); by rewrite ?Hsp', Hsp.
Qed.

Lemma goFieldName_from_clean c s :
  forall prev, is_break c = true -> contains c (goFieldName_from prev s) = false.
Proof.
  intros prev Hc. revert prev. induction s as [|x s IH]; intros prev; [done|].
  rewrite goFieldName_from_cons. destruct (is_break x) eqn:Hx; [apply IH|].
  simpl. rewrite IH, orb_false_r.
  destruct (ToTitle_facts x) as (Hus & Hsp & _).
  unfold is_break in *.
  apply orb_true_iff in Hc as [Hc | Hc]; apply Ascii.eqb_eq in Hc; subst c;
    apply orb_false_iff in Hx as [Hx1 Hx2]; destruct (isSeparator prev); congruence.
Qed.

Lemma goFieldName_from_length s :
  forall prev,
    (String.length (goFieldName_from prev s) + count_breaks s = String.length s)%nat.
Proof.
  induction s as [|x s IH]; intros prev; [done|].
  rewrite goFieldName_from_cons. simpl. destruct (is_break x).
  - specialize (IH " "%char). lia.
  - simpl. specialize (IH x). lia.
Qed.

Lemma goFieldName_from_first s :
  forall prev c t, isSeparator prev = true ->
    goFieldName_from prev s = String c t -> is_lower c = false.
Proof.
  induction s as [|x s IH]; intros prev c t Hprev; [done|].
  rewrite goFieldName_from_cons. destruct (is_break x).
  - by apply IH.
  - rewrite Hprev. intros [= <- _]. apply ToTitle_facts.
Qed.

(** The strings on which the model of [strings.Title] is exact. *)
Fixpoint ascii_only (s : string) : bool :=
  match s with
  | EmptyString => true
  | String c s' => (nat_of_ascii c <=? 127)%nat && ascii_only s'
  end.

(** X5. For an ASCII property name the result of [goFieldName] holds
    neither a space nor an underscore; it is as long as the input without
    those characters, so it is empty exactly when the property name
    consists of underscores and spaces only; and its first character is
    never a lower-case letter. *)
Theorem goFieldName_identifier (s : string) :
  ascii_only s = true ->
  contains " " (goFieldName s) = false /\
  contains "_" (goFieldName s) = false /\
  (String.length (goFieldName s) + count_breaks s = String.length s)%nat /\
  (goFieldName s = EmptyString <-> count_breaks s = String.length s) /\
  (forall c t, goFieldName s = String c t -> is_lower c = false).
Proof.
  intros _. change (goFieldName s) with (goFieldName_from " " s). split_and!.
  - by apply goFieldName_from_clean.
  - by apply goFieldName_from_clean.
  - apply goFieldName_from_length.
  - pose proof (goFieldName_from_length s " "%char) as Hlen. split.
    + intros H. rewrite H in Hlen. simpl in Hlen. lia.
    + intros H. destruct (goFieldName_from " " s); [done|]. simpl in Hlen. lia.
  - intros c t. by apply goFieldName_from_first.
Qed.

Lemma goFieldName_identifier_witness :
  ascii_only "__some_property_name" = true /\
  (String.length (goFieldName "__some_property_name")
   + count_breaks "__some_property_name"
   = String.length "__some_property_name")%nat.
Proof.
  split; [reflexivity|].
  destruct (goFieldName_identifier "__some_property_name" eq_refl)
    as (_ & _ & Hlen & _).
  exact Hlen.
Defined.

(** ** Property types, continued *)







(** X7. The element descriptor of an array and the value descriptor of an
    object must be JSON objects: any other value under "items" or
    "additionalProperties" (a list of descriptors, a boolean, null) makes
    [parsePropertyType] panic on the type assertion. *)
Theorem parsePropertyType_nested_shape (propValue : gmap string json) v :
  propValue !! "$ref" = None ->
  (forall members, v <> JObject members) ->
  (propValue !! "type" = Some (JString "array") ->
   propValue !! "items" = Some v ->
   exists msg, parsePropertyType propValue = Panic msg) /\
  (propValue !! "type" = Some (JString "object") ->
   propValue !! "additionalProperties" = Some v ->
   exists msg, parsePropertyType propValue = Panic msg).
Proof.
  intros Href Hv. rewrite parsePropertyType_unfold. unfold parsePropertyType_body.
  rewrite Href. split; intros -> ->; simpl;
    (destruct v; simpl; eauto; by destruct (Hv members)).
Qed.

Definition free_form_object : gmap string json :=
  obj_map [("type", JString "object"); ("additionalProperties", JBool true)].

Lemma parsePropertyType_nested_shape_witness :
  exists msg, parsePropertyType free_form_object = Panic msg.
Proof.
  destruct (parsePropertyType_nested_shape free_form_object (JBool true) eq_refl)
    as [_ Hobject]; [done|].
  apply Hobject; reflexivity.
Defined.

(** X8. [parsePropertyType] reads four keys of a descriptor and nothing
    else: descriptors that agree on "$ref", "type", "items" and
    "additionalProperties" get the same result, whatever else they hold
    (a description, an enumeration, nested properties). *)
Theorem parsePropertyType_reads (propValue propValue' : gmap string json) :
  (forall k, k ∈ ["$ref"; "type"; "items"; "additionalProperties"] ->
     propValue !! k = propValue' !! k) ->
  parsePropertyType propValue = parsePropertyType propValue'.
Proof.
  intros Hagree. rewrite !parsePropertyType_unfold. unfold parsePropertyType_body.
  rewrite <- !Hagree by set_solver. reflexivity.
Qed.

Lemma parsePropertyType_reads_witness :
  parsePropertyType
    (obj_map [("type", JString "string");
              ("enum", JArray [JString "a"; JString "b"]);
              ("description", JString "One of two.")])
  = parsePropertyType (obj_map [("type", JString "string")]).
Proof.
  apply parsePropertyType_reads. intros k Hk.
  apply list_elem_of_In in Hk. simpl in Hk.
  destruct Hk as [<-|[<-|[<-|[<-|[]]]]]; reflexivity.
Defined.

(** ** Type descriptions, key by key *)

(** X9. [emitToplevelType] reads four keys of a description and nothing
    else: descriptions that agree on "allOf", "type", "properties" and
    "required" give the same result, whatever else they hold. *)
Theorem emitToplevelType_reads typeName (members members' : list (string * json)) :
  (forall k, k ∈ ["allOf"; "type"; "properties"; "required"] ->
     obj_map members !! k = obj_map members' !! k) ->
  emitToplevelType typeName (Some (JObject members))
  = emitToplevelType typeName (Some (JObject members')).
Proof.
  intros Hagree. rewrite !emitToplevelType_unfold. unfold emitToplevelType_body.
  change (orFatal (Unmarshal (T := gmap string json) (Some (JObject members))))
    with (Ok (obj_map members)).
  change (orFatal (Unmarshal (T := gmap string json) (Some (JObject members'))))
    with (Ok (obj_map members')).
  simpl. unfold maybeParseInheritance.
  rewrite <- (Hagree "allOf") by set_solver.
  destruct (obj_map members !! "allOf"); [reflexivity|]. simpl.
  rewrite <- (Hagree "type"), <- (Hagree "properties"), <- (Hagree "required")
    by set_solver.
  reflexivity.
Qed.

Lemma emitToplevelType_reads_witness :
  emitToplevelType "Foo"
    (Some (JObject (("description", JString "A foo.") :: foo_members
                    ++ [("title", JString "Foo")])))
  = emitToplevelType "Foo" (Some (JObject foo_members)).
Proof.
  apply emitToplevelType_reads. intros k Hk.
  apply list_elem_of_In in Hk. simpl in Hk.
  destruct Hk as [<-|[<-|[<-|[<-|[]]]]]; reflexivity.
Defined.

(** X10. A description must be a JSON object: nil input, null, a scalar
    or an array in the place of a description is fatal, for every type
    name. *)
Theorem description_must_be_object typeName (descJson : option json) :
  (forall members, descJson <> Some (JObject members)) ->
  is_fatal (emitToplevelType typeName descJson).
Proof.
  intros Hd. rewrite emitToplevelType_unfold. unfold emitToplevelType_body.
  destruct descJson as [[| | | | |members]|]; try done.
  by destruct (Hd members).
Qed.

Lemma description_must_be_object_witness :
  is_fatal (emitToplevelType "Foo" (Some JNull)) /\
  is_fatal (emitToplevelType "Foo" None).
Proof.
  split; apply description_must_be_object; intros members H; discriminate H.
Defined.





(** ** The required array as a set *)

Lemma emitProp_required_ext rec typeName (pm : gmap string json)
    (rm rm' : gmap string bool) k st :
  isRequired rm k = isRequired rm' k ->
  emitProp rec typeName pm rm k st = emitProp rec typeName pm rm' k st.
Proof.
  intros Hk. destruct st as [b bt]. rewrite !emitProp_cases.
  destruct (String.eqb_spec k "body") as [->|_]; by rewrite Hk.
Qed.

Lemma emitProps_required_ext rec typeName (pm : gmap string json)
    (rm rm' : gmap string bool) names :
  (forall k, k ∈ names -> isRequired rm k = isRequired rm' k) ->
  forall st, emitProps rec typeName pm rm names st
           = emitProps rec typeName pm rm' names st.
Proof.
  induction names as [|k names IH]; intros Hagree st; [done|].
  simpl. rewrite (emitProp_required_ext _ _ _ rm rm') by (apply Hagree; by left).
  destruct (emitProp _ _ _ _ _ _); simpl; [|done..].
  apply IH. intros k' Hk'. apply Hagree. by right.
Qed.

Lemma addRequired_strings names :
  forall rm0, exists rm, addRequired (JString <$> names) rm0 = Ok rm.
Proof. induction names as [|n names IH]; intros rm0; simpl; eauto. Qed.

Lemma existsb_is_name k names :
  existsb (is_name k) (JString <$> names) = bool_decide (k ∈ names).
Proof.
  induction names as [|n names IH]; [done|].
  rewrite fmap_cons. simpl. rewrite IH.
  destruct (String.eqb_spec n k) as [->|Hne]; simpl.
  - symmetry. apply bool_decide_eq_true_2. by left.
  - apply bool_decide_ext. rewrite elem_of_cons. intuition congruence.
Qed.

(** X12. Of the "required" array only the set of names that are
    properties matters: the order of the array, repeated names and names of
    properties that do not exist leave the emitted text unchanged. *)
Theorem required_is_a_set typeName (d d' : option json) baseType
    (own own' : gmap string json) props names names' :
  describes_object d baseType own props ->
  describes_object d' baseType own' props ->
  own !! "required" = Some (JArray (JString <$> names)) ->
  own' !! "required" = Some (JArray (JString <$> names')) ->
  (forall k, k ∈ props.*1 -> (k ∈ names <-> k ∈ names')) ->
  emitToplevelType typeName d = emitToplevelType typeName d'.
Proof.
  intros (dm & Hd & Hinh & Htype & Hprops) (dm' & Hd' & Hinh' & Htype' & Hprops')
    Hreq Hreq' Hsame.
  rewrite (emit_object _ _ _ _ _ Hd Hinh Htype),
    (emit_object _ _ _ _ _ Hd' Hinh' Htype').
  unfold emitObject. rewrite Hprops, Hprops'.
  change (orFatal (Unmarshal (T := gmap string json) (Some (JObject props))))
    with (Ok (obj_map props)).
  simpl. rewrite !keysInOrder_object. simpl.
  destruct (addRequired_strings names ∅) as [rm Hrm].
  destruct (addRequired_strings names' ∅) as [rm' Hrm'].
  assert (requiredMapOf own = Ok rm) as ->.
  { unfold requiredMapOf. by rewrite Hreq. }
  assert (requiredMapOf own' = Ok rm') as ->.
  { unfold requiredMapOf. by rewrite Hreq'. }
  simpl. rewrite (emitProps_required_ext _ _ _ rm rm'); [done|].
  intros k Hk.
  rewrite (addRequired_spec _ _ _ Hrm), (addRequired_spec _ _ _ Hrm').
  rewrite !existsb_is_name. unfold isRequired. rewrite lookup_empty. simpl.
  rewrite !orb_false_r. apply bool_decide_ext. by apply Hsame.
Qed.

Definition foo_members_loose : list (string * json) :=
  [("type", JString "object");
   ("properties", JObject foo_props);
   ("required", JArray (JString <$> ["zzz"; "a"; "a"]))].

Lemma required_is_a_set_witness :
  emitToplevelType "Foo" (Some (JObject foo_members_loose))
  = emitToplevelType "Foo" (Some (JObject foo_members)).
Proof.
  apply (required_is_a_set "Foo" _ _ EmptyString
           (obj_map foo_members_loose) (obj_map foo_members) foo_props
           ["zzz"; "a"; "a"] ["a"]).
  - eexists. split_and!; reflexivity.
  - apply foo_describes.
  - reflexivity.
  - reflexivity.
  - intros k Hk. apply list_elem_of_In in Hk. simpl in Hk.
    destruct Hk as [<-|[<-|[]]]; rewrite !list_elem_of_In; simpl;
      split; intros H; intuition discriminate.
Defined.

(** ** The driver, continued *)

(** X13. The first loop of [main] stops at the first definition, in
    source order, whose emission fails, and fails the way that definition
    fails; the definitions after it are not looked at. *)
Theorem emitTypes_first_failure (typeMap : gmap string json) before k after b r :
  Forall (fun k' => exists t,
            emitToplevelType (replaceGoTypename k') (typeMap !! k') = Ok t) before ->
  emitToplevelType (replaceGoTypename k) (typeMap !! k) = r ->
  aborts r ->
  emitTypes typeMap (before ++ k :: after) b = r.
Proof.
  intros Hbefore Hk Hr. revert b.
  induction Hbefore as [|k' l [t Ht] _ IH]; intros b; simpl.
  - rewrite Hk. by destruct r.
  - rewrite Ht. simpl. apply IH.
Qed.

Definition broken_defs : list (string * json) :=
  [("Foo", JObject foo_members);
   ("Broken", JObject [("type", JString "number")]);
   ("Worse", JNull)].

Lemma emitTypes_first_failure_witness :
  emitTypes (obj_map broken_defs) broken_defs.*1 preamble
  = Fatal "want description type to be object or string, got ".
Proof.
  apply (emitTypes_first_failure (obj_map broken_defs) ["Foo"] "Broken" ["Worse"]).
  - constructor; [|constructor]. eexists. reflexivity.
  - reflexivity.
  - exact I.
Defined.

(** X14. [main] accepts only a document that is a JSON object whose
    "definitions" member is a JSON object: with a document of another
    shape, without "definitions", or with "definitions" null or of another
    shape, nothing is generated.  With no definition at all the text
    given to the pretty-printer is the preamble alone. *)
Theorem generate_input_shape (format_Source : string -> error + string)
    (doc : json) :
  (forall out, generate format_Source doc = Ok out ->
     exists top defs,
       doc = JObject top /\ obj_map top !! "definitions" = Some (JObject defs)) /\
  (forall top, doc = JObject top ->
     obj_map top !! "definitions" = Some (JObject []) ->
     generate format_Source doc = orFatal (format_Source preamble)).
Proof.
  split.
  - intros out. unfold generate. destruct doc as [| | | | |top]; try done.
    change (orFatal (Unmarshal (T := gmap string json) (Some (JObject top))))
      with (Ok (obj_map top)).
    simpl. rewrite keysInOrder_spec.
    destruct (obj_map top !! "definitions") as [[| | | | |defs]|] eqn:Hdefs;
      try done.
    intros _. eauto.
  - intros top -> Hdefs. unfold generate.
    change (orFatal (Unmarshal (T := gmap string json) (Some (JObject top))))
      with (Ok (obj_map top)).
    simpl. rewrite Hdefs, keysInOrder_object.
    change (orFatal (Unmarshal (T := gmap string json) (Some (JObject []))))
      with (Ok (∅ : gmap string json)).
    reflexivity.
Qed.

(** ** Inheritance, continued *)

(** X15. With an "allOf" key, [maybeParseInheritance] succeeds only on a
    list of exactly two elements, each a JSON object or null, the first
    with a well-formed "$ref"; null in the place of the list is fatal like
    any list of another length; and a first element without "$ref" makes
    it panic, once the second element has been decoded. *)
Theorem allOf_shape (descMap : gmap string json) (allOf : json) :
  descMap !! "allOf" = Some allOf ->
  (forall baseType own,
     maybeParseInheritance descMap = Ok (baseType, own) ->
     exists first second (baseTypeRef : gmap string json),
       allOf = JArray [first; second] /\
       Unmarshal (Some first) = inr baseTypeRef /\
       Unmarshal (Some second) = inr own /\
       parseRef (index baseTypeRef "$ref") = Ok baseType) /\
  (allOf = JNull -> is_fatal (maybeParseInheritance descMap)) /\
  (forall first second (baseTypeRef own : gmap string json),
     allOf = JArray [first; second] ->
     Unmarshal (Some first) = inr baseTypeRef ->
     Unmarshal (Some second) = inr own ->
     baseTypeRef !! "$ref" = None ->
     exists msg, maybeParseInheritance descMap = Panic msg).
Proof.
  intros HallOf. unfold maybeParseInheritance. rewrite HallOf. split_and!.
  - intros baseType own.
    destruct allOf as [| | | | items|]; try done.
    change (orFatal (Unmarshal (T := list json) (Some (JArray items))))
      with (Ok items).
    simpl. destruct items as [|first [|second [|third items]]]; try done.
    simpl.
    destruct (Unmarshal (Some first)) as [|baseTypeRef] eqn:Hfirst; [done|].
    simpl.
    destruct (Unmarshal (Some second)) as [|own'] eqn:Hsecond; [done|].
    simpl.
    destruct (parseRef (index baseTypeRef "$ref")) as [name| |] eqn:Href;
      [|done..].
    simpl. intros [= <- <-]. by exists first, second, baseTypeRef.
  - by intros ->.
  - intros first second baseTypeRef own -> Hfirst Hsecond Href.
    change (orFatal (Unmarshal (T := list json) (Some (JArray [first; second]))))
      with (Ok [first; second]).
    simpl. rewrite Hfirst. simpl. rewrite Hsecond. simpl.
    unfold index. rewrite Href. simpl. eauto.
Qed.

Lemma allOf_shape_witness :
  exists msg,
    maybeParseInheritance
      (obj_map [("allOf", JArray [JObject [("type", JString "object")];
                                  JObject bar_own])])
    = Panic msg.
Proof.
  destruct (allOf_shape
              (obj_map [("allOf", JArray [JObject [("type", JString "object")];
                                          JObject bar_own])])
              (JArray [JObject [("type", JString "object")]; JObject bar_own])
              eq_refl) as (_ & _ & Hpanic).
  apply (Hpanic (JObject [("type", JString "object")]) (JObject bar_own)
           (obj_map [("type", JString "object")]) (obj_map bar_own));
    reflexivity.
Defined.

(** ** Duplicate keys *)






(** ** Markers *)

Lemma rev_app_spec (s acc : string) :
  String.rev_app s acc = String.rev s +:+ acc.
Proof.
  revert acc. induction s as [|c s IH]; intros acc; [done|].
  unfold String.rev. simpl. rewrite (IH (String c acc)), (IH (String c EmptyString)).
  by rewrite app_assoc_s.
Qed.

Lemma rev_cons c (s : string) :
  String.rev (String c s) = String.rev s +:+ String c EmptyString.
Proof. unfold String.rev at 1. simpl. apply rev_app_spec. Qed.

Lemma rev_app_distr (a b : string) :
  String.rev (a +:+ b) = String.rev b +:+ String.rev a.
Proof.
  induction a as [|c a IH]; [by rewrite app_empty_l, app_empty_r|].
  by rewrite app_cons, !rev_cons, IH, app_assoc_s.
Qed.

Lemma rev_involutive (s : string) : String.rev (String.rev s) = s.
Proof.
  induction s as [|c s IH]; [done|]. by rewrite rev_cons, rev_app_distr, IH.
Qed.

Lemma HasSuffix_iff (s suf : string) :
  HasSuffix s suf = true <-> exists p, s = p +:+ suf.
Proof.
  unfold HasSuffix. split.
  - intros H. apply (HasPrefix_split (String.rev suf)) in H.
    exists (String.rev (string_drop (String.length (String.rev suf)) (String.rev s))).
    rewrite <- (rev_involutive s) at 1. rewrite H at 1.
    by rewrite rev_app_distr, rev_involutive.
  - intros [p ->]. rewrite rev_app_distr. apply HasPrefix_app.
Qed.

(** The names that get a marker. *)
Definition message_name (typeName : string) : Prop :=
  (exists p, typeName = p +:+ "Event") \/
  (exists p, typeName = p +:+ "Request") \/
  (exists p, typeName = p +:+ "Response") \/
  typeName = "ProtocolMessage".

(** X17. The second loop of [main] appends the [isMessage] marker of a
    definition exactly when its (renamed) name ends in "Event", "Request"
    or "Response", those three names themselves included, or is
    "ProtocolMessage"; it appends nothing for any other name, and works
    through the names one after the other. *)
Theorem markers_by_suffix :
  (forall k b, message_name (replaceGoTypename k) ->
     emitMarkers [k] b
     = b +:+ "func (" +:+ replaceGoTypename k +:+ ") isMessage() {}" +:+ nl) /\
  (forall k b, ~ message_name (replaceGoTypename k) -> emitMarkers [k] b = b) /\
  (forall l1 l2 b, emitMarkers (l1 ++ l2) b = emitMarkers l2 (emitMarkers l1 b)) /\
  (forall b, emitMarkers ["Message"] b = b).
Proof.
  assert (forall tn, isMessageType tn = true <-> message_name tn) as Hiff.
  { intros tn. unfold isMessageType, message_name.
    rewrite !orb_true_iff, !HasSuffix_iff, eqb_true. tauto. }
  split_and!.
  - intros k b Hk. apply Hiff in Hk. simpl.
    fold (isMessageType (replaceGoTypename k)). by rewrite Hk.
  - intros k b Hk. simpl. fold (isMessageType (replaceGoTypename k)).
    destruct (isMessageType _) eqn:E; [|done]. by apply Hiff in E.
  - intros l1. induction l1 as [|k l1 IH]; intros l2 b; [done|].
    simpl. destruct (_ || _); apply IH.
  - reflexivity.
Qed.

(** ** When generation succeeds *)








(** ** The two readings of an object *)

